(** * Request admission control of the restaurant search page

    A shallow embedding of the two fixed-window rate limiters of the
    repository:

    - the server gate of [src/app/api/restaurants/route.ts]
      ([getClientIdentifier], [isRateLimited], the periodic sweep);
    - the client gate of [src/hooks/useRateLimit.ts]
      ([setMultiStorage], [getMultiStorage], the mount effect,
      [checkRateLimit], [reset], [detectManipulation]).

    Conventions.  JavaScript numbers that hold counters and epoch
    milliseconds are modelled as [Z] (they stay far below 2^53, where
    double arithmetic on integers is exact).  JavaScript strings are
    modelled as [string], one character per code unit, restricted to the
    Latin-1 range.  [Date.now()] is an explicit argument [now].  A thrown
    exception is an explicit constructor of the result type. *)

From Stdlib Require Import ZArith String Ascii List Lia DecimalString DecimalZ DecimalPos.
From stdpp Require Import gmap strings.

Local Open Scope Z_scope.

(** ** JavaScript strings *)

Module JsString.

(** [if (value)] on a [string | null]: [null] and the empty string are
    falsy.  The function returns the value when it is truthy. *)
Definition truthy (value : option string) : option string :=
  match value with
  | Some (String c rest) => Some (String c rest)
  | _ => None
  end.

(** White space as [String.prototype.trim] sees it, in the Latin-1 range:
    TAB, LF, VT, FF, CR, SP and NBSP. *)
Definition isWhiteSpace (c : ascii) : bool :=
  match N_of_ascii c with
  | 9 | 10 | 11 | 12 | 13 | 32 | 160 => true
  | _ => false
  end%N.

(** White space as the cookie parser of a browser sees it: SP and TAB. *)
Definition isWsp (c : ascii) : bool :=
  match N_of_ascii c with
  | 9 | 32 => true
  | _ => false
  end%N.

Fixpoint trimStartWith (ws : ascii → bool) (s : string) : string :=
  match s with
  | String c rest => if ws c then trimStartWith ws rest else s
  | EmptyString => EmptyString
  end.

Fixpoint trimEndWith (ws : ascii → bool) (s : string) : string :=
  match s with
  | String c rest =>
      match trimEndWith ws rest with
      | EmptyString => if ws c then EmptyString else String c EmptyString
      | rest' => String c rest'
      end
  | EmptyString => EmptyString
  end.

(** [s.trim()] *)
Definition trim (s : string) : string :=
  trimEndWith isWhiteSpace (trimStartWith isWhiteSpace s).

(** [s.split(sep)] for a separator of one character: the pieces between
    the separators, never an empty array. *)
Fixpoint split (sep : ascii) (s : string) : list string :=
  match s with
  | EmptyString => [EmptyString]
  | String c rest =>
      if Ascii.eqb c sep then EmptyString :: split sep rest
      else match split sep rest with
           | piece :: pieces => String c piece :: pieces
           | [] => [String c EmptyString]
           end
  end.

(** [s.slice(0, n)] *)
Fixpoint slice0 (n : nat) (s : string) : string :=
  match n, s with
  | S n', String c rest => String c (slice0 n' rest)
  | _, _ => EmptyString
  end.

(** The text before and after the first occurrence of [sep], if any. *)
Fixpoint cut (sep : ascii) (s : string) : option (string * string) :=
  match s with
  | EmptyString => None
  | String c rest =>
      if Ascii.eqb c sep then Some (EmptyString, rest)
      else match cut sep rest with
           | Some (before, after) => Some (String c before, after)
           | None => None
           end
  end.

(** [Buffer.from(s)]: the UTF-8 bytes of a string of Latin-1 code units. *)
Definition utf8 (s : string) : list N :=
  flat_map
    (λ c, let n := N_of_ascii c in
          if (n <? 128)%N then [n]
          else [(192 + N.shiftr n 6)%N; (128 + N.land n 63)%N])
    (list_ascii_of_string s).

Definition base64Alphabet : string :=
  "ABCDEFGHIJKLMNOPQRSTUVWXYZabcdefghijklmnopqrstuvwxyz0123456789+/".

Definition base64Digit (n : N) : ascii :=
  match String.get (N.to_nat n) base64Alphabet with
  | Some c => c
  | None => "="%char
  end.

(** [buffer.toString("base64")] *)
Fixpoint base64 (bytes : list N) : string :=
  match bytes with
  | [] => EmptyString
  | [a] =>
      String (base64Digit (N.shiftr a 2))
        (String (base64Digit (N.shiftl (N.land a 3) 4)) "==")
  | [a; b] =>
      String (base64Digit (N.shiftr a 2))
        (String (base64Digit (N.lor (N.shiftl (N.land a 3) 4) (N.shiftr b 4)))
           (String (base64Digit (N.shiftl (N.land b 15) 2)) "="))
  | a :: b :: c :: rest =>
      String (base64Digit (N.shiftr a 2))
        (String (base64Digit (N.lor (N.shiftl (N.land a 3) 4) (N.shiftr b 4)))
           (String (base64Digit (N.lor (N.shiftl (N.land b 15) 2) (N.shiftr c 6)))
              (String (base64Digit (N.land c 63)) (base64 rest))))
  end.

End JsString.

(** ** Server gate: [src/app/api/restaurants/route.ts] *)

Module Server.

Import JsString.

(** [RATE_LIMIT] has the two fields below; the functions take the
    configuration as an argument so that the properties are stated for
    every configuration and then read at the constant of the source. *)
Record RateLimitConfig := {
  maxRequests : Z;
  windowMs : Z
}.

Definition RATE_LIMIT : RateLimitConfig :=
  {| maxRequests := 2; windowMs := 24 * 60 * 60 * 1000 |}.

(** What the gate reads of a [NextRequest]: the headers, keyed by
    lower-case name as [Headers.get] looks them up, next to the URL. *)
Record NextRequest := {
  headers : gmap string string;
  url : string
}.

(** [getClientIdentifier], lines 12-38. *)
Definition getClientIdentifier (request : NextRequest) : string :=
  let forwarded := headers request !! "x-forwarded-for" in
  let realIP := headers request !! "x-real-ip" in
  let clientIP := headers request !! "x-client-ip" in
  let ip :=
    match truthy forwarded, truthy realIP, truthy clientIP with
    | Some forwarded, _, _ => trim (hd EmptyString (split "," forwarded))
    | None, Some realIP, _ => realIP
    | None, None, Some clientIP => clientIP
    | None, None, None => "127.0.0.1"
    end in
  let userAgent :=
    match truthy (headers request !! "user-agent") with
    | Some userAgent => userAgent
    | None => "unknown"
    end in
  let userAgentHash := slice0 16 (base64 (utf8 (slice0 100 userAgent))) in
  ip +:+ "_" +:+ userAgentHash.

(** The values of [requestCounts]. *)
Record CountRecord := {
  count : Z;
  timestamp : Z
}.

(** The object [isRateLimited] returns; [resetTime] is an optional field. *)
Record Verdict := {
  limited : bool;
  remainingRequests : Z;
  resetTime : option Z
}.

(** [isRateLimited], lines 40-68.  The module-level map is threaded
    through: the function returns its verdict and the map it leaves. *)
Definition isRateLimited (cfg : RateLimitConfig) (now : Z) (clientId : string)
    (requestCounts : gmap string CountRecord)
    : Verdict * gmap string CountRecord :=
  let fresh :=
    ({| limited := false;
        remainingRequests := maxRequests cfg - 1;
        resetTime := None |},
     <[clientId := {| count := 1; timestamp := now |}]> requestCounts) in
  match requestCounts !! clientId with
  | None => fresh
  | Some record =>
      if windowMs cfg <? now - timestamp record then fresh
      else if maxRequests cfg <=? count record then
        ({| limited := true;
            remainingRequests := 0;
            resetTime := Some (timestamp record + windowMs cfg) |},
         requestCounts)
      else
        let record' :=
          {| count := count record + 1; timestamp := timestamp record |} in
        ({| limited := false;
            remainingRequests := maxRequests cfg - count record';
            resetTime := None |},
         <[clientId := record']> requestCounts)
  end.

(** The body of the [setInterval] callback, lines 152-159: every entry
    older than twice the window is deleted. *)
Definition stale (cfg : RateLimitConfig) (now : Z)
    (entry : string * CountRecord) : Prop :=
  windowMs cfg * 2 < now - timestamp entry.2.

#[global] Instance stale_dec cfg now entry : Decision (stale cfg now entry).
Proof. unfold stale. apply _. Defined.

Definition sweep (cfg : RateLimitConfig) (now : Z)
    (requestCounts : gmap string CountRecord) : gmap string CountRecord :=
  filter (λ entry, ¬ stale cfg now entry) requestCounts.

(** The states of the process-wide map: it starts empty and changes only
    through requests and sweeps, at arbitrary clock readings. *)
Inductive step (cfg : RateLimitConfig)
    : gmap string CountRecord → gmap string CountRecord → Prop :=
| step_request now clientId m :
    step cfg m (isRateLimited cfg now clientId m).2
| step_sweep now m :
    step cfg m (sweep cfg now m).

Inductive reachable (cfg : RateLimitConfig)
    : gmap string CountRecord → Prop :=
| reachable_empty : reachable cfg ∅
| reachable_step m m' :
    reachable cfg m → step cfg m m' → reachable cfg m'.

(** Every stored count lies between 1 and the cap. *)
Definition counts_bounded (cfg : RateLimitConfig)
    (m : gmap string CountRecord) : Prop :=
  ∀ clientId record,
    m !! clientId = Some record → 1 <= count record <= maxRequests cfg.

End Server.

(** ** The persisted record and its JSON text: [src/hooks/useRateLimit.ts] *)

Module Json.

Import JsString.

(** [interface RequestRecord], lines 10-14. *)
Record RequestRecord := {
  timestamp : Z;
  count : Z;
  fingerprint : option string
}.

Definition quote : ascii := "034"%char.
Definition backslash : ascii := "092"%char.

Definition hexDigit (n : N) : ascii :=
  match String.get (N.to_nat n) "0123456789abcdef" with
  | Some c => c
  | None => "0"%char
  end.

(** One code unit of a string as [JSON.stringify] writes it. *)
Definition escapeChar (c : ascii) : string :=
  let n := N_of_ascii c in
  if Ascii.eqb c quote then String backslash (String quote EmptyString)
  else if Ascii.eqb c backslash then String backslash (String backslash EmptyString)
  else match n with
       | 8 => String backslash "b"
       | 9 => String backslash "t"
       | 10 => String backslash "n"
       | 12 => String backslash "f"
       | 13 => String backslash "r"
       | _ =>
           if (n <? 32)%N then
             String backslash
               (String "u" (String "0" (String "0"
                  (String (hexDigit (N.shiftr n 4))
                     (String (hexDigit (N.land n 15)) EmptyString)))))
           else String c EmptyString
       end%N.

Fixpoint escape (s : string) : string :=
  match s with
  | EmptyString => EmptyString
  | String c rest => escapeChar c +:+ escape rest
  end.

Definition stringifyString (s : string) : string :=
  String quote (escape s +:+ String quote EmptyString).

Definition stringifyNumber (z : Z) : string :=
  NilZero.string_of_int (Z.to_int z).

(** [JSON.stringify(record)]: the properties in the order the gate
    creates them; an undefined [fingerprint] is left out. *)
Definition JSON_stringify (record : RequestRecord) : string :=
  "{" +:+ stringifyString "timestamp" +:+ ":"
      +:+ stringifyNumber (timestamp record)
      +:+ "," +:+ stringifyString "count" +:+ ":"
      +:+ stringifyNumber (count record)
      +:+ match fingerprint record with
          | Some f => "," +:+ stringifyString "fingerprint" +:+ ":"
                          +:+ stringifyString f
          | None => EmptyString
          end
      +:+ "}".

(** Reading.  [expect lit s] strips the prefix [lit]. *)
Fixpoint expect (lit s : string) : option string :=
  match lit, s with
  | EmptyString, _ => Some s
  | String a lit', String b s' =>
      if Ascii.eqb a b then expect lit' s' else None
  | String _ _, EmptyString => None
  end.

Definition isDigit (c : ascii) : bool :=
  let n := N_of_ascii c in ((48 <=? n) && (n <=? 57))%N.

Fixpoint spanDigits (s : string) : string * string :=
  match s with
  | String c rest =>
      if isDigit c then
        let '(digits, rest') := spanDigits rest in (String c digits, rest')
      else (EmptyString, s)
  | EmptyString => (EmptyString, EmptyString)
  end.

Definition startsWithDigit (s : string) : bool :=
  match s with
  | String c _ => isDigit c
  | EmptyString => false
  end.

(** An integer literal of JSON: an optional minus sign, then [0] or a
    digit sequence without a leading zero. *)
Definition parseNumber (s : string) : option (Z * string) :=
  let '(sign, body) :=
    match s with
    | String "-" body => ("-", body)
    | _ => (EmptyString, s)
    end in
  let '(digits, rest) := spanDigits body in
  match digits with
  | EmptyString => None
  | String "0" (String _ _) => None
  | _ =>
      match NilZero.int_of_string (sign +:+ digits) with
      | Some d => Some (Z.of_int d, rest)
      | None => None
      end
  end.

Definition hexValue (c : ascii) : option N :=
  let n := N_of_ascii c in
  if ((48 <=? n) && (n <=? 57))%N then Some (n - 48)%N
  else if ((97 <=? n) && (n <=? 102))%N then Some (n - 87)%N
  else if ((65 <=? n) && (n <=? 70))%N then Some (n - 55)%N
  else None.

(** The character a two-character escape stands for. *)
Definition unescapeChar (c : ascii) : option ascii :=
  if Ascii.eqb c quote then Some quote
  else if Ascii.eqb c backslash then Some backslash
  else match c with
       | "/" => Some "/"
       | "b" => Some "008"
       | "f" => Some "012"
       | "n" => Some "010"
       | "r" => Some "013"
       | "t" => Some "009"
       | _ => None
       end%char.

(** The characters of a string literal after its opening quote, up to the
    closing quote, and the text that follows.  A [\u] escape is read when
    it names a Latin-1 code unit. *)
Fixpoint parseChars (s : string) : option (string * string) :=
  match s with
  | EmptyString => None
  | String c rest =>
      if Ascii.eqb c quote then Some (EmptyString, rest)
      else if Ascii.eqb c backslash then
        match rest with
        | String "u" (String h1 (String h2 (String h3 (String h4 rest')))) =>
            match hexValue h1, hexValue h2, hexValue h3, hexValue h4 with
            | Some 0%N, Some 0%N, Some a, Some b =>
                match parseChars rest' with
                | Some (chars, after) =>
                    Some (String (ascii_of_N (16 * a + b)) chars, after)
                | None => None
                end
            | _, _, _, _ => None
            end
        | String e rest' =>
            match unescapeChar e, parseChars rest' with
            | Some c', Some (chars, after) => Some (String c' chars, after)
            | _, _ => None
            end
        | EmptyString => None
        end
      else if (N_of_ascii c <? 32)%N then None
      else
        match parseChars rest with
        | Some (chars, after) => Some (String c chars, after)
        | None => None
        end
  end.

Definition parseString (s : string) : option (string * string) :=
  match s with
  | String c rest => if Ascii.eqb c quote then parseChars rest else None
  | EmptyString => None
  end.

(** [JSON.parse(text)] at the type [RequestRecord]: [None] stands for the
    [SyntaxError] that [JSON.parse] throws.  The reader accepts the texts
    [JSON.stringify] produces for a [RequestRecord]; a text that is valid
    JSON of another shape has no meaning at the type the source gives the
    result and is outside the domain of the model. *)
Definition JSON_parse (text : string) : option RequestRecord :=
  s ← expect ("{" +:+ stringifyString "timestamp" +:+ ":") text;
  '(timestamp, s) ← parseNumber s;
  s ← expect ("," +:+ stringifyString "count" +:+ ":") s;
  '(count, s) ← parseNumber s;
  match expect ("," +:+ stringifyString "fingerprint" +:+ ":") s with
  | Some s =>
      '(fingerprint, s) ← parseString s;
      match s with
      | "}" => Some {| timestamp := timestamp; count := count;
                       fingerprint := Some fingerprint |}
      | _ => None
      end
  | None =>
      match s with
      | "}" => Some {| timestamp := timestamp; count := count;
                       fingerprint := None |}
      | _ => None
      end
  end.

End Json.

(** ** Client gate: [src/hooks/useRateLimit.ts] *)

Module Client.

Import JsString Json.

(** [interface RateLimitConfig], lines 4-8. *)
Record RateLimitConfig := {
  maxRequests : Z;
  windowMs : Z;
  storageKey : string
}.

(** The three storage backends of the page.  The model is that of a
    browser context ([typeof window] is not ["undefined"]) whose storages
    accept every write.  The cookie jar lists the cookies of the page as
    name and value, oldest first; their expiry is not modelled. *)
Record Browser := {
  localStorage : gmap string string;
  sessionStorage : gmap string string;
  cookieJar : list (string * string)
}.

(** The three [useState] cells of the hook; [resetTime] holds the epoch
    milliseconds of the [Date]. *)
Record LimiterState := {
  isLimited : bool;
  remainingRequests : Z;
  resetTime : option Z
}.

(** Everything a call of the hook's functions can read or change. *)
Record Page := {
  browser : Browser;
  limiter : LimiterState
}.

(** The initial values of the [useState] cells, lines 62-66. *)
Definition initialState (config : RateLimitConfig) : LimiterState :=
  {| isLimited := false;
     remainingRequests := maxRequests config;
     resetTime := None |}.

(** *** The browser's side of the storages *)

Definition localStorage_setItem (key value : string) (b : Browser) : Browser :=
  {| localStorage := <[key := value]> (localStorage b);
     sessionStorage := sessionStorage b;
     cookieJar := cookieJar b |}.

Definition sessionStorage_setItem (key value : string) (b : Browser) : Browser :=
  {| localStorage := localStorage b;
     sessionStorage := <[key := value]> (sessionStorage b);
     cookieJar := cookieJar b |}.

Definition localStorage_removeItem (key : string) (b : Browser) : Browser :=
  {| localStorage := delete key (localStorage b);
     sessionStorage := sessionStorage b;
     cookieJar := cookieJar b |}.

Definition sessionStorage_removeItem (key : string) (b : Browser) : Browser :=
  {| localStorage := localStorage b;
     sessionStorage := delete key (sessionStorage b);
     cookieJar := cookieJar b |}.

(** Reading [document.cookie]: the cookies as [name=value], joined by a
    semicolon and a space; a cookie without a name shows its value only. *)
Definition renderCookie (cookie : string * string) : string :=
  match cookie.1 with
  | EmptyString => cookie.2
  | name => name +:+ "=" +:+ cookie.2
  end.

Fixpoint renderCookies (jar : list (string * string)) : string :=
  match jar with
  | [] => EmptyString
  | [cookie] => renderCookie cookie
  | cookie :: rest => renderCookie cookie +:+ "; " +:+ renderCookies rest
  end.

Fixpoint storeCookie (name value : string) (jar : list (string * string))
    : list (string * string) :=
  match jar with
  | [] => [(name, value)]
  | (n, v) :: rest =>
      if String.eqb n name then (name, value) :: rest
      else (n, v) :: storeCookie name value rest
  end.

(** Assigning to [document.cookie] a text whose attributes keep the cookie
    alive (as [path=/; max-age=86400] does): the browser takes the text up
    to the first semicolon, splits it at the first equals sign, strips
    spaces and tabs around both parts and stores the pair under its name. *)
Definition document_cookie_assign (text : string) (b : Browser) : Browser :=
  let pair := hd EmptyString (split ";" text) in
  let '(name, value) :=
    match cut "=" pair with
    | Some (name, value) => (name, value)
    | None => (EmptyString, pair)
    end in
  let name := trimEndWith isWsp (trimStartWith isWsp name) in
  let value := trimEndWith isWsp (trimStartWith isWsp value) in
  match name, value with
  | EmptyString, EmptyString => b
  | _, _ =>
      {| localStorage := localStorage b;
         sessionStorage := sessionStorage b;
         cookieJar := storeCookie name value (cookieJar b) |}
  end.

(** The user (or the browser) dropping the cookie of a given name. *)
Definition deleteCookie (name : string) (b : Browser) : Browser :=
  {| localStorage := localStorage b;
     sessionStorage := sessionStorage b;
     cookieJar :=
       List.filter (λ cookie, negb (String.eqb cookie.1 name)) (cookieJar b) |}.

(** *** The hook *)

(** [setMultiStorage], lines 17-28. *)
Definition setMultiStorage (key value : string) (b : Browser) : Browser :=
  let b := localStorage_setItem key value b in
  let b := sessionStorage_setItem key value b in
  document_cookie_assign (key +:+ "=" +:+ value +:+ "; path=/; max-age=86400") b.

(** The loop of lines 47-56 over the pieces of [document.cookie]. *)
Fixpoint findCookie (key : string) (cookies : list string) : option string :=
  match cookies with
  | [] => None
  | cookie :: rest =>
      let parts := split "=" (trim cookie) in
      let name := hd EmptyString parts in
      let val := truthy (nth_error parts 1) in
      match String.eqb name key, val with
      | true, Some val => Some val
      | _, _ => findCookie key rest
      end
  end.

(** [getMultiStorage], lines 31-59. *)
Definition getMultiStorage (key : string) (b : Browser) : option string * Browser :=
  match truthy (localStorage b !! key) with
  | Some value => (Some value, b)
  | None =>
      match truthy (sessionStorage b !! key) with
      | Some value => (Some value, localStorage_setItem key value b)
      | None =>
          let cookies := split ";" (renderCookies (cookieJar b)) in
          match findCookie key cookies with
          | Some val =>
              (Some val,
               sessionStorage_setItem key val (localStorage_setItem key val b))
          | None => (None, b)
          end
      end
  end.

(** The page after a change of its storages. *)
Definition withBrowser (b : Browser) (p : Page) : Page :=
  {| browser := b; limiter := limiter p |}.

(** [detectManipulation], lines 173-203.  The [catch] turns the failure
    of [JSON.parse] into the answer [false]. *)
Definition detectManipulation (config : RateLimitConfig) (fingerprint : string)
    (p : Page) : bool * Page :=
  match fingerprint with
  | EmptyString => (false, p)
  | _ =>
      let b := browser p in
      let localData := truthy (localStorage b !! storageKey config) in
      let sessionData := truthy (sessionStorage b !! storageKey config) in
      match localData, sessionData with
      | Some localData, None =>
          (true,
           withBrowser (sessionStorage_setItem (storageKey config) localData b) p)
      | None, Some sessionData =>
          (true,
           withBrowser (localStorage_setItem (storageKey config) sessionData b) p)
      | Some localData, Some _ =>
          match JSON_parse localData with
          | None => (false, p)
          | Some record =>
              match truthy (Json.fingerprint record) with
              | Some stamped => (negb (String.eqb stamped fingerprint), p)
              | None => (false, p)
              end
          end
      | None, None => (false, p)
      end
  end.

(** How a call of [checkRateLimit] ends: with a value, or with the
    exception an uncaught [JSON.parse] raises. *)
Inductive completion (A : Type) : Type :=
| Returns (value : A)
| Throws_SyntaxError.

Arguments Returns {A} value.
Arguments Throws_SyntaxError {A}.

(** [checkRateLimit], lines 107-157. *)
Definition checkRateLimit (config : RateLimitConfig) (fingerprint : string)
    (now : Z) (p : Page) : completion bool * Page :=
  match fingerprint with
  | EmptyString => (Returns false, p)
  | _ =>
      let '(_, p) := detectManipulation config fingerprint p in
      let '(stored, b) := getMultiStorage (storageKey config) (browser p) in
      let parsed :=
        match truthy stored with
        | Some stored => JSON_parse stored
        | None => Some {| timestamp := now; count := 0;
                          fingerprint := Some fingerprint |}
        end in
      match parsed with
      | None => (Throws_SyntaxError, withBrowser b p)
      | Some record =>
          let resetTime := timestamp record + windowMs config in
          if (now <? resetTime) && (maxRequests config <=? count record) then
            (Returns true,
             {| browser := b;
                limiter := {| isLimited := true;
                              remainingRequests := 0;
                              resetTime := Some resetTime |} |})
          else
            let '(record, b) :=
              if resetTime <=? now then
                let record := {| timestamp := now; count := 0;
                                 fingerprint := Some fingerprint |} in
                (record,
                 setMultiStorage (storageKey config) (JSON_stringify record) b)
              else (record, b) in
            if maxRequests config <=? count record then
              (Returns true,
               {| browser := b;
                  limiter := {| isLimited := true;
                                remainingRequests := 0;
                                resetTime := Some resetTime |} |})
            else
              let record := {| timestamp := timestamp record;
                               count := count record + 1;
                               fingerprint := Some fingerprint |} in
              let b :=
                setMultiStorage (storageKey config) (JSON_stringify record) b in
              (Returns false,
               {| browser := b;
                  limiter :=
                    {| isLimited := false;
                       remainingRequests := maxRequests config - count record;
                       resetTime :=
                         if maxRequests config <=? count record
                         then Some resetTime else None |} |})
      end
  end.

(** The effect of lines 70-105, run when the page loads and when the
    fingerprint or the configuration changes. *)
Definition mountEffect (config : RateLimitConfig) (fingerprint : string)
    (now : Z) (p : Page) : Page :=
  match fingerprint with
  | EmptyString => p
  | _ =>
      let '(stored, b) := getMultiStorage (storageKey config) (browser p) in
      match truthy stored with
      | None => withBrowser b p
      | Some stored =>
          match JSON_parse stored with
          | None =>
              withBrowser
                (sessionStorage_removeItem (storageKey config)
                   (localStorage_removeItem (storageKey config) b)) p
          | Some record =>
              let resetTimeValue := timestamp record + windowMs config in
              if (now <? resetTimeValue) && (maxRequests config <=? count record)
              then
                {| browser := b;
                   limiter := {| isLimited := true;
                                 remainingRequests := 0;
                                 resetTime := Some resetTimeValue |} |}
              else if resetTimeValue <=? now then
                {| browser :=
                     sessionStorage_removeItem (storageKey config)
                       (localStorage_removeItem (storageKey config) b);
                   limiter := initialState config |}
              else
                {| browser := b;
                   limiter :=
                     {| isLimited := false;
                        remainingRequests := maxRequests config - count record;
                        resetTime := None |} |}
          end
      end
  end.

(** [getRemainingTime], lines 159-162. *)
Definition getRemainingTime (now : Z) (p : Page) : Z :=
  match resetTime (limiter p) with
  | None => 0
  | Some resetTime => Z.max 0 (resetTime - now)
  end.

(** [reset], lines 164-170. *)
Definition reset (config : RateLimitConfig) (p : Page) : Page :=
  {| browser :=
       sessionStorage_removeItem (storageKey config)
         (localStorage_removeItem (storageKey config) (browser p));
     limiter := initialState config |}.

(** The record a read of the store finds, as text. *)
Definition storedText (key : string) (b : Browser) : option string :=
  (getMultiStorage key b).1.

(** The storages as [checkRateLimit] has them once [detectManipulation]
    and [getMultiStorage] have run (lines 111-114). *)
Definition observed (config : RateLimitConfig) (fingerprint : string)
    (p : Page) : Browser :=
  (getMultiStorage (storageKey config)
     (browser (detectManipulation config fingerprint p).2)).2.

(** The record [checkRateLimit] works on (lines 116-118): the stored one,
    read back, or a new one when nothing is stored; [None] when the stored
    text does not parse. *)
Definition recordAt (config : RateLimitConfig) (fingerprint : string)
    (now : Z) (p : Page) : option RequestRecord :=
  match storedText (storageKey config) (browser p) with
  | Some stored => JSON_parse stored
  | None => Some {| timestamp := now; count := 0;
                    fingerprint := Some fingerprint |}
  end.

(** The stored record has a count within the cap. *)
Definition count_bounded (config : RateLimitConfig) (b : Browser) : Prop :=
  ∀ stored,
    storedText (storageKey config) b = Some stored →
    ∃ record,
      JSON_parse stored = Some record ∧ count record <= maxRequests config.

(** A browser that holds nothing, and the page that opens on it. *)
Definition emptyBrowser : Browser :=
  {| localStorage := ∅; sessionStorage := ∅; cookieJar := [] |}.

Definition freshPage (config : RateLimitConfig) : Page :=
  {| browser := emptyBrowser; limiter := initialState config |}.

(** The pages a session can be in: it starts on a store without a record
    under the key and goes on by calls of [checkRateLimit], at arbitrary
    clock readings, with one configuration and one fingerprint. *)
Inductive reachable (config : RateLimitConfig) (fingerprint : string)
    : Page → Prop :=
| reachable_start p :
    storedText (storageKey config) (browser p) = None →
    reachable config fingerprint p
| reachable_check now p :
    reachable config fingerprint p →
    reachable config fingerprint (checkRateLimit config fingerprint now p).2.

End Client.

(** ** The request handler: [src/app/api/restaurants/route.ts] *)

Module Route.

Import JsString Server.

(** [n.toString()] for an integer. *)
Definition toString (n : Z) : string := Json.stringifyNumber n.

(** [Math.ceil(a / b)] for integers and a positive [b]. *)
Definition ceilDiv (a b : Z) : Z := - ((- a) / b).

(** How [fetch] and the [response.json()] that follows can end: the
    promise of [fetch] is rejected, or fulfilled with a response whose
    body parses ([Some]) or not ([None]).  [Data] is the payload, which
    the handler passes on unread. *)
Inductive FetchOutcome (Data : Type) : Type :=
| Rejected
| Fulfilled (ok : bool) (httpStatus : Z) (json : option Data).

Arguments Rejected {Data}.
Arguments Fulfilled {Data} ok httpStatus json.

(** The four bodies the handler sends; their constant texts are left out. *)
Inductive Body (Data : Type) : Type :=
| RateLimitExceeded (retryAfter : Z) (clientId : string)
| MissingParameters
| Payload (data : Data)
| InternalServerError.

Arguments RateLimitExceeded {Data} retryAfter clientId.
Arguments MissingParameters {Data}.
Arguments Payload {Data} data.
Arguments InternalServerError {Data}.

Record Response (Data : Type) := {
  status : Z;
  responseHeaders : list (string * string);
  body : Body Data
}.

Arguments status {Data} r.
Arguments responseHeaders {Data} r.
Arguments body {Data} r.

(** What a run of the handler leaves: the response, the map, and the
    URLs it has fetched. *)
Record Served (Data : Type) := {
  response : Response Data;
  counts : gmap string CountRecord;
  fetched : list string
}.

Arguments response {Data} s.
Arguments counts {Data} s.
Arguments fetched {Data} s.

(** The URL of the upstream webhook, lines 113-115. *)
Definition n8nUrl (latitude longitude : string) (radius : option string)
    : string :=
  "https://semmyhkm.app.n8n.cloud/webhook/resto-reco?latitude=" +:+ latitude
    +:+ "&longitude=" +:+ longitude
    +:+ "&radius=" +:+ match truthy radius with
                       | Some radius => radius
                       | None => "300"
                       end.

(** [GET], lines 70-149.  [searchParamsOf] stands for
    [new URL(url).searchParams] (the first value of each name), [fetch]
    for the upstream; [now] is the clock reading inside [isRateLimited],
    [now'] the later one of line 77. *)
Definition GET {Data : Type} (cfg : RateLimitConfig)
    (searchParamsOf : string → gmap string string)
    (fetch : string → FetchOutcome Data)
    (now now' : Z) (request : NextRequest)
    (requestCounts : gmap string CountRecord) : Served Data :=
  let clientId := getClientIdentifier request in
  let '(verdict, requestCounts) :=
    isRateLimited cfg now clientId requestCounts in
  if limited verdict then
    let retryAfter :=
      match resetTime verdict with
      | Some resetTime =>
          if resetTime =? 0 then 60 else ceilDiv (resetTime - now') 1000
      | None => 60
      end in
    {| response :=
         {| status := 429;
            responseHeaders :=
              [("Retry-After", toString retryAfter);
               ("X-RateLimit-Limit", toString (maxRequests cfg));
               ("X-RateLimit-Remaining", "0");
               ("X-RateLimit-Reset",
                match resetTime verdict with
                | Some resetTime => toString resetTime
                | None => EmptyString
                end)];
            body := RateLimitExceeded retryAfter clientId |};
       counts := requestCounts;
       fetched := [] |}
  else
    let searchParams := searchParamsOf (url request) in
    let latitude := searchParams !! "latitude" in
    let longitude := searchParams !! "longitude" in
    let radius := searchParams !! "radius" in
    match truthy latitude, truthy longitude with
    | Some latitude, Some longitude =>
        let target := n8nUrl latitude longitude radius in
        match fetch target with
        | Fulfilled true _ (Some data) =>
            {| response :=
                 {| status := 200;
                    responseHeaders :=
                      [("X-RateLimit-Limit", toString (maxRequests cfg));
                       ("X-RateLimit-Remaining",
                        toString (remainingRequests verdict));
                       ("X-Client-ID", clientId)];
                    body := Payload data |};
               counts := requestCounts;
               fetched := [target] |}
        | _ =>
            {| response := {| status := 500; responseHeaders := [];
                              body := InternalServerError |};
               counts := requestCounts;
               fetched := [target] |}
        end
    | _, _ =>
        {| response := {| status := 400; responseHeaders := [];
                          body := MissingParameters |};
           counts := requestCounts;
           fetched := [] |}
    end.

(** What happens to the map over time: requests and sweeps. *)
Inductive event : Type :=
| Request (now : Z) (clientId : string)
| Sweep (now : Z).

Definition eventTime (e : event) : Z :=
  match e with
  | Request now _ => now
  | Sweep now => now
  end.

(** The number of requests of [clientId] that a run of [events] admits. *)
Fixpoint admissions (cfg : RateLimitConfig) (clientId : string)
    (events : list event) (requestCounts : gmap string CountRecord) : nat :=
  match events with
  | [] => 0%nat
  | Request now id :: rest =>
      let '(verdict, requestCounts) := isRateLimited cfg now id requestCounts in
      ((if String.eqb id clientId && negb (limited verdict) then 1 else 0)
       + admissions cfg clientId rest requestCounts)%nat
  | Sweep now :: rest =>
      admissions cfg clientId rest (sweep cfg now requestCounts)
  end.

(** The traffic of the route: requests, each with the two clock readings
    of its run and the upstream as it answers that run, and sweeps. *)
Inductive traffic (Data : Type) : Type :=
| Arrives (now now' : Z) (request : NextRequest)
    (fetch : string → FetchOutcome Data)
| Sweeps (now : Z).

Arguments Arrives {Data} now now' request fetch.
Arguments Sweeps {Data} now.

Definition trafficTime {Data : Type} (t : traffic Data) : Z :=
  match t with
  | Arrives now _ _ _ => now
  | Sweeps now => now
  end.

(** The number of upstream fetches made for the requests of [clientId]
    over a run of the traffic. *)
Fixpoint upstreamCalls {Data : Type} (cfg : RateLimitConfig)
    (searchParamsOf : string → gmap string string) (clientId : string)
    (arrivals : list (traffic Data))
    (requestCounts : gmap string CountRecord) : nat :=
  match arrivals with
  | [] => 0%nat
  | Arrives now now' request fetch :: rest =>
      let served := GET cfg searchParamsOf fetch now now' request requestCounts in
      ((if String.eqb (getClientIdentifier request) clientId
        then List.length (fetched served) else 0)
       + upstreamCalls cfg searchParamsOf clientId rest (counts served))%nat
  | Sweeps now :: rest =>
      upstreamCalls cfg searchParamsOf clientId rest (sweep cfg now requestCounts)
  end.

(** The requests and sweeps of a run of the traffic. *)
Fixpoint eventsOf {Data : Type} (arrivals : list (traffic Data)) : list event :=
  match arrivals with
  | [] => []
  | Arrives now _ request _ :: rest =>
      Request now (getClientIdentifier request) :: eventsOf rest
  | Sweeps now :: rest => Sweep now :: eventsOf rest
  end.

(** The user agent [getClientIdentifier] hashes (line 31). *)
Definition userAgentOf (request : NextRequest) : string :=
  match truthy (headers request !! "user-agent") with
  | Some userAgent => userAgent
  | None => "unknown"
  end.

End Route.

(** ** The fingerprint of the browser: [useBrowserFingerprint] *)

Module Fingerprint.

Import JsString Json Client.

(** What the hook reads of [screen], [Intl] and [navigator]. *)
Record Environment := {
  screenWidth : Z;
  screenHeight : Z;
  screenColorDepth : Z;
  timeZone : string;
  navigatorLanguage : string;
  navigatorPlatform : string;
  navigatorUserAgent : string;
  navigatorCookieEnabled : bool;
  navigatorDoNotTrack : option string
}.

(** [interface BrowserFingerprint], lines 3-11. *)
Record BrowserFingerprint := {
  screen : string;
  timezone : string;
  language : string;
  platform : string;
  userAgent : string;
  cookieEnabled : bool;
  doNotTrack : string
}.

(** The object of lines 27-35. *)
Definition collect (env : Environment) : BrowserFingerprint :=
  {| screen := stringifyNumber (screenWidth env) +:+ "x"
                 +:+ stringifyNumber (screenHeight env) +:+ "x"
                 +:+ stringifyNumber (screenColorDepth env);
     timezone := timeZone env;
     language := navigatorLanguage env;
     platform := navigatorPlatform env;
     userAgent := slice0 100 (navigatorUserAgent env);
     cookieEnabled := navigatorCookieEnabled env;
     doNotTrack := match truthy (navigatorDoNotTrack env) with
                   | Some value => value
                   | None => "unknown"
                   end |}.

(** [JSON.stringify(data)] at the type [BrowserFingerprint]. *)
Definition stringifyData (data : BrowserFingerprint) : string :=
  "{" +:+ stringifyString "screen" +:+ ":" +:+ stringifyString (screen data)
      +:+ "," +:+ stringifyString "timezone" +:+ ":"
      +:+ stringifyString (timezone data)
      +:+ "," +:+ stringifyString "language" +:+ ":"
      +:+ stringifyString (language data)
      +:+ "," +:+ stringifyString "platform" +:+ ":"
      +:+ stringifyString (platform data)
      +:+ "," +:+ stringifyString "userAgent" +:+ ":"
      +:+ stringifyString (userAgent data)
      +:+ "," +:+ stringifyString "cookieEnabled" +:+ ":"
      +:+ (if cookieEnabled data then "true" else "false")
      +:+ "," +:+ stringifyString "doNotTrack" +:+ ":"
      +:+ stringifyString (doNotTrack data)
      +:+ "}".

(** [btoa(s)]: base64 of the code units of [s], one byte each ([btoa]
    throws on a code unit beyond Latin-1; the strings of the model have
    none). *)
Definition btoa (s : string) : string :=
  base64 (map N_of_ascii (list_ascii_of_string s)).

Definition isAlphanumeric (c : ascii) : bool :=
  let n := N_of_ascii c in
  (((48 <=? n) && (n <=? 57)) || ((65 <=? n) && (n <=? 90))
   || ((97 <=? n) && (n <=? 122)))%N.

(** [s.replace(/[^a-zA-Z0-9]/g, "")] *)
Fixpoint keepAlphanumeric (s : string) : string :=
  match s with
  | EmptyString => EmptyString
  | String c rest =>
      if isAlphanumeric c then String c (keepAlphanumeric rest)
      else keepAlphanumeric rest
  end.

(** [generateFingerprint], lines 26-43. *)
Definition generateFingerprint (env : Environment) : string :=
  slice0 32 (keepAlphanumeric (btoa (stringifyData (collect env)))).

(** The effect of lines 16-50: the fingerprint the hook takes, and the
    browser it leaves. *)
Definition useBrowserFingerprint (env : Environment) (b : Browser)
    : string * Browser :=
  match truthy (sessionStorage b !! "browser-fingerprint") with
  | Some cachedFingerprint => (cachedFingerprint, b)
  | None =>
      let newFingerprint := generateFingerprint env in
      (newFingerprint,
       sessionStorage_setItem "browser-fingerprint" newFingerprint b)
  end.

(** Every character of [s] passes the test [P]. *)
Fixpoint allChars (P : ascii → bool) (s : string) : bool :=
  match s with
  | EmptyString => true
  | String c rest => P c && allChars P rest
  end.

(** A character of the ASCII range whose low six bits do not spell 62 or
    63: in any position of a group of three such characters, base64
    yields letters and digits only. *)
Definition plainByte (c : ascii) : bool :=
  let n := N_of_ascii c in ((n <? 128) && (N.land n 63 <? 62))%N.

(** The characters of the text of [screen]: digits, the minus sign and
    the letter x. *)
Definition isScreenChar (c : ascii) : bool :=
  isDigit c || Ascii.eqb c "-" || Ascii.eqb c "x".

(** The first characters of [JSON.stringify(data)]: the opening of the
    object up to the start of the value of [timezone]. *)
Definition screenHead (screen : string) : string :=
  "{" +:+ stringifyString "screen" +:+ ":" +:+ String quote screen
      +:+ String quote ("," +:+ stringifyString "timezone" +:+ ":"
                            +:+ String quote EmptyString).

End Fingerprint.

(** ** Runs of the client gate *)

Module Session.

Import Json Client.

(** The number of calls that a run of [checkRateLimit] at the clock
    readings [times] admits. *)
Fixpoint admissions (config : RateLimitConfig) (fingerprint : string)
    (times : list Z) (p : Page) : nat :=
  match times with
  | [] => 0%nat
  | now :: rest =>
      let '(answer, p) := checkRateLimit config fingerprint now p in
      ((match answer with
        | Returns false => 1
        | _ => 0
        end) + admissions config fingerprint rest p)%nat
  end.

(** The stored record has a count between 1 and the cap. *)
Definition record_in_range (config : RateLimitConfig) (b : Browser) : Prop :=
  ∀ stored,
    storedText (storageKey config) b = Some stored →
    ∃ record,
      JSON_parse stored = Some record
      ∧ 1 <= count record <= maxRequests config.

(** The two web storages of [b'] hold under every key but [key] what
    those of [b] hold. *)
Definition same_elsewhere (key : string) (b b' : Browser) : Prop :=
  ∀ other, other ≠ key →
    localStorage b' !! other = localStorage b !! other
    ∧ sessionStorage b' !! other = sessionStorage b !! other.

(** *** Cookies that survive the trip through [document.cookie] *)

(** The character [sep] does not occur in [s]. *)
Fixpoint lacks (sep : ascii) (s : string) : bool :=
  match s with
  | EmptyString => true
  | String c rest => negb (Ascii.eqb c sep) && lacks sep rest
  end.

(** No character of [s] is a semicolon or an equals sign. *)
Definition cookieSafe (s : string) : bool :=
  lacks ";" s && lacks "=" s.

(** A text that is not empty and ends with a character [ws] rejects. *)
Definition endsWell (ws : ascii → bool) (s : string) : Prop :=
  s ≠ EmptyString ∧ JsString.trimEndWith ws s = s.

(** A cookie name as a browser keeps it and [trim] leaves it. *)
Definition tidyName (name : string) : bool :=
  match name with
  | String c _ => negb (JsString.isWhiteSpace c) && cookieSafe name
  | EmptyString => false
  end.

Definition tidyValue (value : string) : bool :=
  lacks ";" value
  && String.eqb (JsString.trimEndWith JsString.isWhiteSpace value) value.

Definition tidyJar (jar : list (string * string)) : bool :=
  forallb (λ cookie, tidyName cookie.1 && tidyValue cookie.2) jar.

Definition tidyKey (key : string) : bool :=
  tidyName key && String.eqb (JsString.trimEndWith JsString.isWsp key) key.

(** The first cookie of the jar with the name [key] and a value whose
    part before any equals sign is not empty; that part. *)
Fixpoint lookupJar (key : string) (jar : list (string * string))
    : option string :=
  match jar with
  | [] => None
  | (name, value) :: rest =>
      match String.eqb name key,
            JsString.truthy (head (JsString.split "=" value)) with
      | true, Some val => Some val
      | _, _ => lookupJar key rest
      end
  end.

(** The pieces of [document.cookie] between the semicolons, for a jar of
    tidy cookies. *)
Definition segments (jar : list (string * string)) : list string :=
  match jar with
  | [] => [EmptyString]
  | cookie :: rest =>
      renderCookie cookie :: map (λ c, String " " (renderCookie c)) rest
  end.

(** The fingerprint of a record, if any, is free of semicolons and equals
    signs. *)
Definition fingerprintSafe (record : RequestRecord) : bool :=
  match fingerprint record with
  | Some f => cookieSafe f
  | None => true
  end.

End Session.

(** ** Sample data *)

Module Samples.

Import Server.

(** Two requests of one client: the same address chain and user agent,
    other headers and another query. *)
Definition request_a : NextRequest :=
  {| headers := {[ "x-forwarded-for" := "203.0.113.5, 10.0.0.1";
                   "user-agent" := "Mozilla/5.0 (X11; Linux x86_64)";
                   "accept" := "application/json" ]};
     url := "https://example.org/api/restaurants?latitude=1&longitude=2" |}.

Definition request_b : NextRequest :=
  {| headers := {[ "x-forwarded-for" := "203.0.113.5, 10.0.0.1";
                   "user-agent" := "Mozilla/5.0 (X11; Linux x86_64)";
                   "accept-language" := "fr" ]};
     url := "https://example.org/api/restaurants?latitude=48&longitude=2&radius=500" |}.

(** A map in which one client has used up its quota at time 0. *)
Definition exhausted : gmap string CountRecord :=
  {[ "203.0.113.5_abcd1234" := {| count := 2; timestamp := 0 |} ]}.

End Samples.

Module ClientSamples.

Import Json Client.

(** The configuration of the product (spec, section 6) under a key of
    our choosing, and the same with a cap of one request. *)
Definition betaConfig : RateLimitConfig :=
  {| maxRequests := 2; windowMs := 86400000;
     storageKey := "restaurant-search" |}.

Definition singleConfig : RateLimitConfig :=
  {| maxRequests := 1; windowMs := 86400000;
     storageKey := "restaurant-search" |}.

(** The page after a first search at time 0 by the session with
    fingerprint [F1]. *)
Definition searchedOnce : Page :=
  (checkRateLimit betaConfig "F1" 0 (freshPage betaConfig)).2.

Definition searchedOnceSingle : Page :=
  (checkRateLimit singleConfig "F1" 0 (freshPage singleConfig)).2.

(** The record that search leaves in the three backends. *)
Definition firstRecord : RequestRecord :=
  {| timestamp := 0; count := 1; fingerprint := Some "F1" |}.

(** A page whose three backends hold a text that is not JSON. *)
Definition corruptText : string := "{corrupt".

Definition corruptPage : Page :=
  {| browser :=
       {| localStorage := {[ "restaurant-search" := corruptText ]};
          sessionStorage := {[ "restaurant-search" := corruptText ]};
          cookieJar := [("restaurant-search", corruptText)] |};
     limiter := initialState betaConfig |}.

End ClientSamples.

Module MoreSamples.

Import Server Route.

(** The client of [Samples.request_a] with its quota used up at time 0,
    and with one request left. *)
Definition busy : gmap string CountRecord :=
  {[ "203.0.113.5_TW96aWxsYS81LjAg" := {| count := 2; timestamp := 0 |} ]}.

Definition halfUsed : gmap string CountRecord :=
  {[ "203.0.113.5_TW96aWxsYS81LjAg" := {| count := 1; timestamp := 0 |} ]}.

(** The same address behind another browser. *)
Definition request_c : NextRequest :=
  {| headers := {[ "x-forwarded-for" := "203.0.113.5, 10.0.0.1";
                   "user-agent" :=
                     "Mozilla/5.0 (Windows NT 10.0; Win64; x64) Firefox/128.0" ]};
     url := "https://example.org/api/restaurants" |}.

(** A URL parser that finds no parameter, one that finds the three, and
    an upstream that fails. *)
Definition noParams (url : string) : gmap string string := ∅.

Definition allParams (url : string) : gmap string string :=
  {[ "latitude" := "48.85"; "longitude" := "2.35"; "radius" := "500" ]}.

Definition down (url : string) : FetchOutcome string := Rejected.

Definition up (url : string) : FetchOutcome string :=
  Fulfilled true 200 (Some "payload").

(** Two screens of one size in different places. *)
Definition paris : Fingerprint.Environment :=
  {| Fingerprint.screenWidth := 1920; Fingerprint.screenHeight := 1080;
     Fingerprint.screenColorDepth := 24;
     Fingerprint.timeZone := "Europe/Paris";
     Fingerprint.navigatorLanguage := "fr-FR";
     Fingerprint.navigatorPlatform := "Linux x86_64";
     Fingerprint.navigatorUserAgent := "Mozilla/5.0 (X11; Linux x86_64)";
     Fingerprint.navigatorCookieEnabled := true;
     Fingerprint.navigatorDoNotTrack := None |}.

Definition tokyo : Fingerprint.Environment :=
  {| Fingerprint.screenWidth := 1920; Fingerprint.screenHeight := 1080;
     Fingerprint.screenColorDepth := 24;
     Fingerprint.timeZone := "Asia/Tokyo";
     Fingerprint.navigatorLanguage := "ja";
     Fingerprint.navigatorPlatform := "Win32";
     Fingerprint.navigatorUserAgent :=
       "Mozilla/5.0 (Windows NT 10.0; Win64; x64) Firefox/128.0";
     Fingerprint.navigatorCookieEnabled := false;
     Fingerprint.navigatorDoNotTrack := Some "1" |}.

(** A browser with one cookie of another site feature. *)
Definition themed : Client.Browser :=
  {| Client.localStorage := {[ "theme" := "dark" ]};
     Client.sessionStorage := ∅;
     Client.cookieJar := [("theme", "dark")] |}.

(** A record that has used up the quota of [ClientSamples.betaConfig]. *)
Definition fullRecord : Json.RequestRecord :=
  {| Json.timestamp := 0; Json.count := 2; Json.fingerprint := Some "F1" |}.

(** The page after the second search, at time 1000, and a page on the
    browser with the foreign cookie. *)
Definition searchedTwice : Client.Page :=
  (Client.checkRateLimit ClientSamples.betaConfig "F1" 1000
     ClientSamples.searchedOnce).2.

Definition themedPage : Client.Page :=
  {| Client.browser := themed;
     Client.limiter := Client.initialState ClientSamples.betaConfig |}.


End MoreSamples.

(** * Properties

    ** The JSON text of a record reads back as the record *)

Module JsonFacts.

Import JsString Json.

#[local] Arguments String.append : simpl nomatch.

Lemma append_assoc (a b c : string) : (a +:+ b) +:+ c = a +:+ (b +:+ c).
Proof. induction a as [|x a IH]; simpl; [done | by f_equal]. Qed.

Lemma spanDigits_uint d rest :
  startsWithDigit rest = false →
  spanDigits (NilEmpty.string_of_uint d +:+ rest)
  = (NilEmpty.string_of_uint d, rest).
Proof.
  intros Hrest.
  induction d; simpl; rewrite ?IHd; try done.
  destruct rest as [|c rest]; simpl in *; [done | by rewrite Hrest].
Qed.

Lemma to_uint_no_leading_zero p d : Pos.to_uint p ≠ Decimal.D0 d.
Proof.
  assert (Hnorm : Decimal.unorm (Pos.to_uint p) = Pos.to_uint p).
  { pose proof (DecimalN.Unsigned.to_of (Pos.to_uint p)) as H.
    change (N.of_uint (Pos.to_uint p)) with (N.of_uint (N.to_uint (Npos p))) in H.
    rewrite DecimalN.Unsigned.of_to in H. symmetry. exact H. }
  intros Heq.
  assert (Hcase : Decimal.nzhead (Pos.to_uint p) = Decimal.Nil
                  ∨ Decimal.nzhead (Pos.to_uint p) ≠ Decimal.Nil)
    by (destruct (Decimal.nzhead (Pos.to_uint p)); auto).
  destruct Hcase as [Hnz|Hnz].
  - apply DecimalFacts.unorm_0 in Hnz. rewrite Hnorm in Hnz.
    by apply DecimalPos.Unsigned.to_uint_nonzero in Hnz.
  - rewrite DecimalFacts.unorm_nzhead in Hnorm by done.
    rewrite <- Hnorm in Heq. by apply DecimalFacts.nzhead_nonzero in Heq.
Qed.

Lemma parseNumber_stringify z rest :
  startsWithDigit rest = false →
  parseNumber (stringifyNumber z +:+ rest) = Some (z, rest).
Proof.
  intros Hrest. unfold stringifyNumber.
  destruct z as [|p|p]; simpl.
  - unfold parseNumber. simpl.
    destruct rest as [|c rest]; simpl in *; [done | by rewrite Hrest].
  - unfold parseNumber, NilZero.string_of_uint.
    pose proof (DecimalPos.Unsigned.to_uint_nonnil p) as Hnil.
    pose proof (to_uint_no_leading_zero p) as Hzero.
    pose proof (DecimalZ.of_to (Z.pos p)) as Hof.
    pose proof (NilZero.isi (Decimal.Pos (Pos.to_uint p))) as Hisi.
    simpl in Hof, Hisi. unfold NilZero.string_of_uint in Hisi.
    destruct (Pos.to_uint p) as [|d|d|d|d|d|d|d|d|d|d] eqn:Hd; try done;
      try (by destruct (Hzero d));
      simpl; rewrite spanDigits_uint by done; simpl;
      simpl in Hisi; rewrite Hisi by done; simpl; by rewrite Hof.
  - unfold parseNumber, NilZero.string_of_uint.
    pose proof (DecimalPos.Unsigned.to_uint_nonnil p) as Hnil.
    pose proof (to_uint_no_leading_zero p) as Hzero.
    pose proof (DecimalZ.of_to (Z.neg p)) as Hof.
    pose proof (NilZero.isi (Decimal.Neg (Pos.to_uint p))) as Hisi.
    simpl in Hof, Hisi. unfold NilZero.string_of_uint in Hisi.
    destruct (Pos.to_uint p) as [|d|d|d|d|d|d|d|d|d|d] eqn:Hd; try done;
      try (by destruct (Hzero d));
      simpl; rewrite spanDigits_uint by done; simpl;
      simpl in Hisi; rewrite Hisi by done; simpl; by rewrite Hof.
Qed.

Lemma parseChars_escapeChar c tail :
  parseChars (escapeChar c +:+ tail)
  = match parseChars tail with
    | Some (chars, after) => Some (String c chars, after)
    | None => None
    end.
Proof. by destruct c as [[] [] [] [] [] [] [] []]. Qed.

Lemma parseChars_escape s rest :
  parseChars (escape s +:+ String quote rest) = Some (s, rest).
Proof.
  induction s as [|c s IH]; simpl; [done |].
  by rewrite append_assoc, parseChars_escapeChar, IH.
Qed.

Lemma JSON_parse_stringify record :
  JSON_parse (JSON_stringify record) = Some record.
Proof.
  destruct record as [ts n [f|]]; unfold JSON_parse, JSON_stringify; simpl.
  - rewrite parseNumber_stringify by done. simpl.
    rewrite parseNumber_stringify by done. simpl.
    rewrite append_assoc. simpl. by rewrite parseChars_escape.
  - rewrite parseNumber_stringify by done. simpl.
    by rewrite parseNumber_stringify.
Qed.

Example JSON_stringify_firstRecord :
  JSON_stringify ClientSamples.firstRecord
  = "{" +:+ stringifyString "timestamp" +:+ ":0,"
        +:+ stringifyString "count" +:+ ":1,"
        +:+ stringifyString "fingerprint" +:+ ":"
        +:+ stringifyString "F1" +:+ "}".
Proof. reflexivity. Qed.

Example JSON_parse_corruptText : JSON_parse ClientSamples.corruptText = None.
Proof. reflexivity. Qed.

End JsonFacts.

(** ** The server gate *)

Module ServerSpec.

Import JsString Server Samples.

Section Gate.
Variable cfg : RateLimitConfig.

(** The three outcomes of a request, one equation each. *)
Lemma isRateLimited_first now clientId (m : gmap string CountRecord) :
  m !! clientId = None →
  isRateLimited cfg now clientId m
  = ({| limited := false; remainingRequests := maxRequests cfg - 1;
        resetTime := None |},
     <[clientId := {| count := 1; timestamp := now |}]> m).
Proof. intros Hm. unfold isRateLimited. by rewrite Hm. Qed.

Lemma isRateLimited_elapsed now clientId (m : gmap string CountRecord) record :
  m !! clientId = Some record →
  windowMs cfg < now - timestamp record →
  isRateLimited cfg now clientId m
  = ({| limited := false; remainingRequests := maxRequests cfg - 1;
        resetTime := None |},
     <[clientId := {| count := 1; timestamp := now |}]> m).
Proof.
  intros Hm Hlt. unfold isRateLimited. rewrite Hm.
  by rewrite (proj2 (Z.ltb_lt _ _) Hlt).
Qed.

Lemma isRateLimited_denied now clientId (m : gmap string CountRecord) record :
  m !! clientId = Some record →
  now - timestamp record <= windowMs cfg →
  maxRequests cfg <= count record →
  isRateLimited cfg now clientId m
  = ({| limited := true; remainingRequests := 0;
        resetTime := Some (timestamp record + windowMs cfg) |}, m).
Proof.
  intros Hm Hle Hmax. unfold isRateLimited. rewrite Hm.
  rewrite (proj2 (Z.ltb_ge _ _) Hle).
  by rewrite (proj2 (Z.leb_le _ _) Hmax).
Qed.

Lemma isRateLimited_counted now clientId (m : gmap string CountRecord) record :
  m !! clientId = Some record →
  now - timestamp record <= windowMs cfg →
  count record < maxRequests cfg →
  isRateLimited cfg now clientId m
  = ({| limited := false;
        remainingRequests := maxRequests cfg - (count record + 1);
        resetTime := None |},
     <[clientId := {| count := count record + 1;
                      timestamp := timestamp record |}]> m).
Proof.
  intros Hm Hle Hmax. unfold isRateLimited. rewrite Hm.
  rewrite (proj2 (Z.ltb_ge _ _) Hle).
  by rewrite (proj2 (Z.leb_gt _ _) Hmax).
Qed.

(** Case analysis on a request, for the proofs below. *)
Lemma isRateLimited_cases now clientId (m : gmap string CountRecord) :
  (isRateLimited cfg now clientId m
   = ({| limited := false; remainingRequests := maxRequests cfg - 1;
         resetTime := None |},
      <[clientId := {| count := 1; timestamp := now |}]> m))
  ∨ (∃ record,
       m !! clientId = Some record ∧ maxRequests cfg <= count record ∧
       isRateLimited cfg now clientId m
       = ({| limited := true; remainingRequests := 0;
             resetTime := Some (timestamp record + windowMs cfg) |}, m))
  ∨ (∃ record,
       m !! clientId = Some record ∧ count record < maxRequests cfg ∧
       isRateLimited cfg now clientId m
       = ({| limited := false;
             remainingRequests := maxRequests cfg - (count record + 1);
             resetTime := None |},
          <[clientId := {| count := count record + 1;
                           timestamp := timestamp record |}]> m)).
Proof.
  destruct (m !! clientId) as [record|] eqn:Hm.
  - destruct (Z.lt_ge_cases (windowMs cfg) (now - timestamp record)).
    + left. by eapply isRateLimited_elapsed.
    + destruct (Z.lt_ge_cases (count record) (maxRequests cfg)).
      * right; right. exists record. eauto using isRateLimited_counted.
      * right; left. exists record. eauto using isRateLimited_denied.
  - left. by apply isRateLimited_first.
Qed.

Hypothesis cap_positive : 1 <= maxRequests cfg.

Lemma isRateLimited_bounded now clientId m :
  counts_bounded cfg m → counts_bounded cfg (isRateLimited cfg now clientId m).2.
Proof.
  intros Hm.
  destruct (isRateLimited_cases now clientId m)
    as [-> | [(record & Hrec & Hmax & ->) | (record & Hrec & Hmax & ->)]];
    simpl; [| done |].
  - intros i r. destruct (decide (clientId = i)) as [->|Hne].
    + rewrite lookup_insert_eq. intros [= <-]. simpl. lia.
    + rewrite lookup_insert_ne by done. apply Hm.
  - intros i r. destruct (decide (clientId = i)) as [->|Hne].
    + rewrite lookup_insert_eq. intros [= <-]. simpl.
      specialize (Hm _ _ Hrec). lia.
    + rewrite lookup_insert_ne by done. apply Hm.
Qed.

Lemma sweep_bounded now m :
  counts_bounded cfg m → counts_bounded cfg (sweep cfg now m).
Proof.
  intros Hm i r Hi. unfold sweep in Hi.
  apply map_lookup_filter_Some in Hi as [Hi _]. by eapply Hm.
Qed.

Lemma reachable_bounded m : reachable cfg m → counts_bounded cfg m.
Proof.
  induction 1 as [|m m' _ IH Hstep].
  - intros i r Hi. by rewrite lookup_empty in Hi.
  - destruct Hstep; auto using isRateLimited_bounded, sweep_bounded.
Qed.

End Gate.

(** A denied request leaves the map as it found it. *)
Lemma isRateLimited_denied_keeps cfg now clientId m :
  limited (isRateLimited cfg now clientId m).1 = true →
  (isRateLimited cfg now clientId m).2 = m.
Proof.
  destruct (isRateLimited_cases cfg now clientId m)
    as [-> | [(record & Hrec & Hmax & ->) | (record & Hrec & Hmax & ->)]];
    simpl; done.
Qed.

(** C3 as stated (elapsed means [now >= windowStart + windowMs]) fails at
    the instant the window ends: with a used-up record of time 0 and the
    clock at exactly [windowMs], the guard [now - timestamp > windowMs] of
    line 48 is false, the request is denied and the record stays. *)
Lemma isRateLimited_window_end_denied :
  exhausted !! "203.0.113.5_abcd1234" = Some {| count := 2; timestamp := 0 |}
  ∧ 0 + windowMs RATE_LIMIT <= 86400000
  ∧ limited (isRateLimited RATE_LIMIT 86400000 "203.0.113.5_abcd1234"
               exhausted).1 = true
  ∧ (isRateLimited RATE_LIMIT 86400000 "203.0.113.5_abcd1234" exhausted).2
    = exhausted.
Proof.
  split; [reflexivity |]. split; [simpl; lia |].
  split; vm_compute; reflexivity.
Qed.

(** C3, amended: once more than [windowMs] has passed since the
    [timestamp] of a client's record ([now > timestamp + windowMs]), the
    next request of that client is admitted and installs the record
    [{count: 1, timestamp: now}], whatever the count was before. *)
Theorem isRateLimited_after_window cfg now clientId
    (m : gmap string CountRecord) record :
  m !! clientId = Some record →
  timestamp record + windowMs cfg < now →
  limited (isRateLimited cfg now clientId m).1 = false
  ∧ (isRateLimited cfg now clientId m).2 !! clientId
    = Some {| count := 1; timestamp := now |}
  ∧ (isRateLimited cfg now clientId m).2
    = <[clientId := {| count := 1; timestamp := now |}]> m.
Proof.
  intros Hm Hlt.
  rewrite (isRateLimited_elapsed cfg now clientId m record) by (done || lia).
  simpl. by rewrite lookup_insert_eq.
Qed.

Lemma isRateLimited_after_window_witness :
  limited (isRateLimited RATE_LIMIT 86400001 "203.0.113.5_abcd1234"
             exhausted).1 = false
  ∧ (isRateLimited RATE_LIMIT 86400001 "203.0.113.5_abcd1234" exhausted).2
      !! "203.0.113.5_abcd1234"
    = Some {| count := 1; timestamp := 86400001 |}
  ∧ (isRateLimited RATE_LIMIT 86400001 "203.0.113.5_abcd1234" exhausted).2
    = <["203.0.113.5_abcd1234" := {| count := 1; timestamp := 86400001 |}]>
        exhausted.
Proof.
  apply (isRateLimited_after_window RATE_LIMIT 86400001 "203.0.113.5_abcd1234"
           exhausted {| count := 2; timestamp := 0 |}).
  - reflexivity.
  - simpl. lia.
Defined.

(** C9: in every state of the map that requests and sweeps can reach,
    every record has [1 <= count <= maxRequests], and every admitted
    request reports [remainingRequests = maxRequests - count >= 0] for the
    count it leaves in the map. *)
Theorem reachable_counts_in_range cfg (m : gmap string CountRecord) :
  1 <= maxRequests cfg →
  reachable cfg m →
  counts_bounded cfg m
  ∧ ∀ now clientId,
      limited (isRateLimited cfg now clientId m).1 = false →
      ∃ record,
        (isRateLimited cfg now clientId m).2 !! clientId = Some record
        ∧ remainingRequests (isRateLimited cfg now clientId m).1
          = maxRequests cfg - count record
        ∧ 0 <= remainingRequests (isRateLimited cfg now clientId m).1.
Proof.
  intros Hcap Hreach.
  pose proof (reachable_bounded cfg Hcap m Hreach) as Hbounded.
  split; [done |]. intros now clientId.
  destruct (isRateLimited_cases cfg now clientId m)
    as [-> | [(record & Hrec & Hmax & ->) | (record & Hrec & Hmax & ->)]];
    simpl; [| done |]; intros _.
  - exists {| count := 1; timestamp := now |}.
    rewrite lookup_insert_eq. simpl. repeat split; lia.
  - exists {| count := count record + 1; timestamp := timestamp record |}.
    rewrite lookup_insert_eq. simpl. repeat split; lia.
Qed.

Lemma reachable_counts_in_range_witness :
  counts_bounded RATE_LIMIT
    (isRateLimited RATE_LIMIT 1000 "203.0.113.5_abcd1234" exhausted).2
  ∧ ∀ now clientId,
      limited (isRateLimited RATE_LIMIT now clientId
                 (isRateLimited RATE_LIMIT 1000 "203.0.113.5_abcd1234"
                    exhausted).2).1 = false →
      ∃ record,
        (isRateLimited RATE_LIMIT now clientId
           (isRateLimited RATE_LIMIT 1000 "203.0.113.5_abcd1234"
              exhausted).2).2 !! clientId = Some record
        ∧ remainingRequests
            (isRateLimited RATE_LIMIT now clientId
               (isRateLimited RATE_LIMIT 1000 "203.0.113.5_abcd1234"
                  exhausted).2).1
          = maxRequests RATE_LIMIT - count record
        ∧ 0 <= remainingRequests
                 (isRateLimited RATE_LIMIT now clientId
                    (isRateLimited RATE_LIMIT 1000 "203.0.113.5_abcd1234"
                       exhausted).2).1.
Proof.
  apply reachable_counts_in_range.
  - simpl. lia.
  - apply reachable_step with exhausted; [| apply step_request].
    replace exhausted
      with (isRateLimited RATE_LIMIT 1
              "203.0.113.5_abcd1234"
              (isRateLimited RATE_LIMIT 0 "203.0.113.5_abcd1234" ∅).2).2
      by (vm_compute; reflexivity).
    apply reachable_step
      with (isRateLimited RATE_LIMIT 0 "203.0.113.5_abcd1234" ∅).2;
      [| apply step_request].
    apply reachable_step with ∅; [apply reachable_empty | apply step_request].
Defined.

(** C7: two requests that carry the same [x-forwarded-for], [x-real-ip],
    [x-client-ip] and [user-agent] get the same identifier, whatever else
    differs between them. *)
Theorem getClientIdentifier_deterministic (request1 request2 : NextRequest) :
  headers request1 !! "x-forwarded-for" = headers request2 !! "x-forwarded-for" →
  headers request1 !! "x-real-ip" = headers request2 !! "x-real-ip" →
  headers request1 !! "x-client-ip" = headers request2 !! "x-client-ip" →
  headers request1 !! "user-agent" = headers request2 !! "user-agent" →
  getClientIdentifier request1 = getClientIdentifier request2.
Proof.
  intros Hf Hr Hc Hu. unfold getClientIdentifier.
  by rewrite Hf, Hr, Hc, Hu.
Qed.

Lemma getClientIdentifier_deterministic_witness :
  getClientIdentifier request_a = getClientIdentifier request_b.
Proof.
  apply getClientIdentifier_deterministic; reflexivity.
Defined.

Example getClientIdentifier_request_a :
  getClientIdentifier request_a = "203.0.113.5_TW96aWxsYS81LjAg".
Proof. vm_compute. reflexivity. Qed.

Example getClientIdentifier_no_headers :
  getClientIdentifier {| headers := ∅; url := "http://localhost:3000/" |}
  = "127.0.0.1_dW5rbm93bg==".
Proof. vm_compute. reflexivity. Qed.

(** The scenario of the spec: two requests of one client are admitted with
    1 and then 0 requests left, the third within the window is denied. *)
Example isRateLimited_three_requests :
  let id := "203.0.113.5_abcd1234" in
  let first := isRateLimited RATE_LIMIT 0 id ∅ in
  let second := isRateLimited RATE_LIMIT 1000 id first.2 in
  let third := isRateLimited RATE_LIMIT 2000 id second.2 in
  (limited first.1, remainingRequests first.1) = (false, 1)
  ∧ (limited second.1, remainingRequests second.1) = (false, 0)
  ∧ third.1 = {| limited := true; remainingRequests := 0;
                 resetTime := Some 86400000 |}
  ∧ third.2 = exhausted.
Proof. repeat split; vm_compute; reflexivity. Qed.

End ServerSpec.

(** ** The client gate *)

Module ClientSpec.

Import JsString Json Client JsonFacts ClientSamples.

#[local] Arguments String.append : simpl nomatch.


Lemma truthy_idem value s : truthy value = Some s → truthy (Some s) = Some s.
Proof. destruct value as [[|c rest]|]; simpl; try congruence. by intros [= <-]. Qed.

Lemma findCookie_truthy key cookies val :
  findCookie key cookies = Some val → truthy (Some val) = Some val.
Proof.
  induction cookies as [|cookie rest IH]; [done |].
  cbn [findCookie]. cbv zeta.
  destruct (String.eqb _ key); [| done].
  destruct (truthy (nth_error (split "=" (trim cookie)) 1)) as [v|] eqn:Hv;
    [| done].
  intros [= <-]. by eapply truthy_idem.
Qed.

(** *** What a read returns and what it leaves *)

Lemma document_cookie_assign_storages text b :
  localStorage (document_cookie_assign text b) = localStorage b
  ∧ sessionStorage (document_cookie_assign text b) = sessionStorage b.
Proof.
  unfold document_cookie_assign.
  destruct (cut "=" _) as [[name value]|];
    destruct (trimEndWith isWsp _), (trimEndWith isWsp _); done.
Qed.

Lemma setMultiStorage_local key value b :
  localStorage (setMultiStorage key value b) = <[key := value]> (localStorage b).
Proof.
  unfold setMultiStorage.
  by rewrite (proj1 (document_cookie_assign_storages _ _)).
Qed.

Lemma setMultiStorage_session key value b :
  sessionStorage (setMultiStorage key value b)
  = <[key := value]> (sessionStorage b).
Proof.
  unfold setMultiStorage.
  by rewrite (proj2 (document_cookie_assign_storages _ _)).
Qed.

Lemma getMultiStorage_local key b value :
  truthy (localStorage b !! key) = Some value →
  getMultiStorage key b = (Some value, b).
Proof. intros H. unfold getMultiStorage. by rewrite H. Qed.

Lemma storedText_local key b value :
  truthy (localStorage b !! key) = Some value → storedText key b = Some value.
Proof. intros H. unfold storedText. by rewrite (getMultiStorage_local _ _ value). Qed.

Lemma storedText_truthy key b value :
  storedText key b = Some value → truthy (Some value) = Some value.
Proof.
  unfold storedText, getMultiStorage.
  destruct (truthy (localStorage b !! key)) eqn:Hl; simpl.
  { intros [= <-]. by eapply truthy_idem. }
  destruct (truthy (sessionStorage b !! key)) eqn:Hs; simpl.
  { intros [= <-]. by eapply truthy_idem. }
  destruct (findCookie _ _) eqn:Hc; simpl; [| done].
  intros [= <-]. by eapply findCookie_truthy.
Qed.

Lemma storedText_None key b :
  storedText key b = None →
  truthy (localStorage b !! key) = None
  ∧ truthy (sessionStorage b !! key) = None
  ∧ getMultiStorage key b = (None, b).
Proof.
  unfold storedText, getMultiStorage.
  destruct (truthy (localStorage b !! key)); [done |].
  destruct (truthy (sessionStorage b !! key)); [done |].
  by destruct (findCookie _ _).
Qed.

(** A read leaves a store in which the same read hits [localStorage]. *)
Lemma getMultiStorage_settles key b value :
  storedText key b = Some value →
  truthy (localStorage (getMultiStorage key b).2 !! key) = Some value
  ∧ cookieJar (getMultiStorage key b).2 = cookieJar b.
Proof.
  intros Hread. pose proof (storedText_truthy _ _ _ Hread) as Htruthy.
  revert Hread. unfold storedText, getMultiStorage.
  destruct (truthy (localStorage b !! key)) eqn:Hl; simpl.
  { by intros [= <-]. }
  destruct (truthy (sessionStorage b !! key)) eqn:Hs; simpl.
  { intros [= <-]. by rewrite lookup_insert_eq. }
  destruct (findCookie _ _) eqn:Hc; simpl; [| done].
  intros [= <-]. by rewrite lookup_insert_eq.
Qed.

Lemma getMultiStorage_again key b :
  storedText key (getMultiStorage key b).2 = storedText key b.
Proof.
  destruct (storedText key b) as [value|] eqn:Hread.
  - apply storedText_local. by apply getMultiStorage_settles.
  - pose proof (storedText_None _ _ Hread) as (_ & _ & ->). done.
Qed.

(** *** What the manipulation check leaves *)

Lemma detectManipulation_limiter config fingerprint p :
  limiter (detectManipulation config fingerprint p).2 = limiter p.
Proof.
  unfold detectManipulation.
  destruct fingerprint as [|c fingerprint]; [done |].
  destruct (truthy (localStorage _ !! _)) as [l|];
    destruct (truthy (sessionStorage _ !! _)) as [s|]; simpl; try done.
  destruct (JSON_parse l) as [record|]; [| done].
  by destruct (truthy (Json.fingerprint record)).
Qed.

Lemma detectManipulation_cookieJar config fingerprint p :
  cookieJar (browser (detectManipulation config fingerprint p).2)
  = cookieJar (browser p).
Proof.
  unfold detectManipulation.
  destruct fingerprint as [|c fingerprint]; [done |].
  destruct (truthy (localStorage _ !! _)) as [l|];
    destruct (truthy (sessionStorage _ !! _)) as [s|]; simpl; try done.
  destruct (JSON_parse l) as [record|]; [| done].
  by destruct (truthy (Json.fingerprint record)).
Qed.

Lemma detectManipulation_storedText config fingerprint p :
  storedText (storageKey config)
    (browser (detectManipulation config fingerprint p).2)
  = storedText (storageKey config) (browser p).
Proof.
  unfold detectManipulation.
  destruct fingerprint as [|c fingerprint]; [done |].
  destruct (truthy (localStorage (browser p) !! storageKey config))
    as [l|] eqn:Hl;
    destruct (truthy (sessionStorage (browser p) !! storageKey config))
      as [s|] eqn:Hs;
    simpl; try done.
  - destruct (JSON_parse l) as [record|]; [| done].
    by destruct (truthy (Json.fingerprint record)).
  - rewrite !(storedText_local _ _ l); done.
  - rewrite (storedText_local _ _ s).
    + unfold storedText, getMultiStorage. by rewrite Hl, Hs.
    + simpl. rewrite lookup_insert_eq. by eapply truthy_idem.
Qed.

Lemma observed_storedText config fingerprint p :
  storedText (storageKey config) (observed config fingerprint p)
  = storedText (storageKey config) (browser p).
Proof.
  unfold observed.
  by rewrite getMultiStorage_again, detectManipulation_storedText.
Qed.

Lemma storedText_setMultiStorage key record b :
  storedText key (setMultiStorage key (JSON_stringify record) b)
  = Some (JSON_stringify record).
Proof.
  apply storedText_local. rewrite setMultiStorage_local.
  by rewrite lookup_insert_eq.
Qed.

(** *** The outcomes of [checkRateLimit], one equation each *)

Section Outcomes.

Variable config : RateLimitConfig.
Variable fingerprint : string.
Variable now : Z.
Variable p : Page.
Hypothesis available : fingerprint ≠ EmptyString.

(** The two reads at the head of the function. *)
Lemma checkRateLimit_reads :
  ∃ flag p1,
    detectManipulation config fingerprint p = (flag, p1)
    ∧ limiter p1 = limiter p
    ∧ getMultiStorage (storageKey config) (browser p1)
      = (storedText (storageKey config) (browser p),
         observed config fingerprint p)
    ∧ truthy (storedText (storageKey config) (browser p))
      = storedText (storageKey config) (browser p).
Proof.
  exists (detectManipulation config fingerprint p).1,
         (detectManipulation config fingerprint p).2.
  split; [by destruct (detectManipulation _ _ _) |].
  split; [apply detectManipulation_limiter |]. split.
  - unfold observed.
    rewrite <- (detectManipulation_storedText config fingerprint p).
    unfold storedText. by destruct (getMultiStorage _ _).
  - destruct (storedText _ (browser p)) as [value|] eqn:Hread; [| done].
    by eapply storedText_truthy.
Qed.

Ltac enter_checkRateLimit :=
  let p1 := fresh "p1" in
  let flag := fresh "flag" in
  let Hdetect := fresh "Hdetect" in
  let Hlim := fresh "Hlim" in
  let Hget := fresh "Hget" in
  let Htruthy := fresh "Htruthy" in
  destruct checkRateLimit_reads as (flag & p1 & Hdetect & Hlim & Hget & Htruthy);
  unfold checkRateLimit, recordAt in *;
  destruct fingerprint; [done |];
  rewrite Hdetect, Hget, Htruthy.

Lemma checkRateLimit_throws :
  recordAt config fingerprint now p = None →
  checkRateLimit config fingerprint now p
  = (Throws_SyntaxError, withBrowser (observed config fingerprint p) p).
Proof.
  intros Hrecord. enter_checkRateLimit.
  destruct (storedText _ (browser p)); [| done].
  rewrite Hrecord. unfold withBrowser. by rewrite Hlim.
Qed.

Lemma checkRateLimit_blocked record :
  recordAt config fingerprint now p = Some record →
  now < timestamp record + windowMs config →
  maxRequests config <= count record →
  checkRateLimit config fingerprint now p
  = (Returns true,
     {| browser := observed config fingerprint p;
        limiter := {| isLimited := true;
                      remainingRequests := 0;
                      resetTime := Some (timestamp record + windowMs config) |} |}).
Proof.
  intros Hrecord Hopen Hfull. enter_checkRateLimit.
  assert (Hguard : (now <? timestamp record + windowMs config)
                   && (maxRequests config <=? count record) = true)
    by (apply andb_true_iff; split; [by apply Z.ltb_lt | by apply Z.leb_le]).
  destruct (storedText _ (browser p));
    [rewrite Hrecord | injection Hrecord as <-; simpl in *];
    cbv zeta; by rewrite Hguard.
Qed.

Lemma checkRateLimit_counted record :
  recordAt config fingerprint now p = Some record →
  now < timestamp record + windowMs config →
  count record < maxRequests config →
  checkRateLimit config fingerprint now p
  = (Returns false,
     {| browser :=
          setMultiStorage (storageKey config)
            (JSON_stringify {| timestamp := timestamp record;
                               count := count record + 1;
                               Json.fingerprint := Some fingerprint |})
            (observed config fingerprint p);
        limiter :=
          {| isLimited := false;
             remainingRequests := maxRequests config - (count record + 1);
             resetTime :=
               if maxRequests config <=? count record + 1
               then Some (timestamp record + windowMs config) else None |} |}).
Proof.
  intros Hrecord Hopen Hroom. enter_checkRateLimit.
  assert (Hfull : (maxRequests config <=? count record) = false)
    by (by apply Z.leb_gt).
  assert (Helapsed : (timestamp record + windowMs config <=? now) = false)
    by (by apply Z.leb_gt).
  destruct (storedText _ (browser p));
    [rewrite Hrecord | injection Hrecord as <-; simpl in *];
    cbv zeta; rewrite Hfull, andb_false_r, Helapsed; simpl; by rewrite Hfull.
Qed.

Lemma checkRateLimit_elapsed record :
  recordAt config fingerprint now p = Some record →
  timestamp record + windowMs config <= now →
  1 <= maxRequests config →
  checkRateLimit config fingerprint now p
  = (Returns false,
     {| browser :=
          setMultiStorage (storageKey config)
            (JSON_stringify {| timestamp := now; count := 1;
                               Json.fingerprint := Some fingerprint |})
            (setMultiStorage (storageKey config)
               (JSON_stringify {| timestamp := now; count := 0;
                                  Json.fingerprint := Some fingerprint |})
               (observed config fingerprint p));
        limiter :=
          {| isLimited := false;
             remainingRequests := maxRequests config - 1;
             resetTime :=
               if maxRequests config <=? 1
               then Some (timestamp record + windowMs config) else None |} |}).
Proof.
  intros Hrecord Hover Hcap. enter_checkRateLimit.
  assert (Hopen : (now <? timestamp record + windowMs config) = false)
    by (by apply Z.ltb_ge).
  assert (Helapsed : (timestamp record + windowMs config <=? now) = true)
    by (by apply Z.leb_le).
  assert (Hzero : (maxRequests config <=? 0) = false)
    by (apply Z.leb_gt; lia).
  destruct (storedText _ (browser p));
    [rewrite Hrecord | injection Hrecord as <-; simpl in *];
    cbv zeta; rewrite Hopen, Helapsed; simpl; by rewrite Hzero.
Qed.

(** Which of the outcomes applies. *)
Lemma checkRateLimit_cases record :
  (now < timestamp record + windowMs config
   ∧ maxRequests config <= count record)
  ∨ (now < timestamp record + windowMs config
     ∧ count record < maxRequests config)
  ∨ timestamp record + windowMs config <= now.
Proof. lia. Qed.

End Outcomes.

Lemma checkRateLimit_unidentified config now p :
  checkRateLimit config EmptyString now p = (Returns false, p).
Proof. done. Qed.

Lemma recordAt_bounded config fingerprint now p :
  1 <= maxRequests config →
  count_bounded config (browser p) →
  ∃ record,
    recordAt config fingerprint now p = Some record
    ∧ count record <= maxRequests config.
Proof.
  intros Hcap Hinv. unfold recordAt.
  destruct (storedText _ (browser p)) as [stored|] eqn:Hread.
  - by apply Hinv.
  - eexists. split; [done |]. simpl. lia.
Qed.

Lemma count_bounded_setMultiStorage config record b :
  count record <= maxRequests config →
  count_bounded config
    (setMultiStorage (storageKey config) (JSON_stringify record) b).
Proof.
  intros Hle stored. rewrite storedText_setMultiStorage. intros [= <-].
  exists record. by rewrite JSON_parse_stringify.
Qed.

(** *** The invariant of the client gate *)

Lemma checkRateLimit_keeps_bound config fingerprint now p :
  1 <= maxRequests config →
  count_bounded config (browser p) →
  count_bounded config (browser (checkRateLimit config fingerprint now p).2).
Proof.
  intros Hcap Hinv.
  destruct (decide (fingerprint = EmptyString)) as [->|Havailable]; [done |].
  destruct (recordAt_bounded config fingerprint now p Hcap Hinv)
    as (record & Hrecord & Hle).
  destruct (checkRateLimit_cases config now record)
    as [[Hopen Hfull] | [[Hopen Hroom] | Hover]].
  - rewrite (checkRateLimit_blocked _ _ _ _ Havailable record) by done.
    simpl. intros stored. rewrite observed_storedText. apply Hinv.
  - rewrite (checkRateLimit_counted _ _ _ _ Havailable record) by done.
    simpl. apply count_bounded_setMultiStorage. simpl. lia.
  - rewrite (checkRateLimit_elapsed _ _ _ _ Havailable record) by done.
    simpl. apply count_bounded_setMultiStorage. simpl. lia.
Qed.

Lemma reachable_count_bounded config fingerprint p :
  1 <= maxRequests config →
  reachable config fingerprint p →
  count_bounded config (browser p).
Proof.
  intros Hcap. induction 1 as [p Hnone | now p _ IH].
  - intros stored. by rewrite Hnone.
  - by apply checkRateLimit_keeps_bound.
Qed.

(** A call that answers [true] leaves the stored text as it found it. *)
Lemma checkRateLimit_denied_keeps config fingerprint now p p' :
  1 <= maxRequests config →
  checkRateLimit config fingerprint now p = (Returns true, p') →
  storedText (storageKey config) (browser p')
  = storedText (storageKey config) (browser p).
Proof.
  intros Hcap.
  destruct (decide (fingerprint = EmptyString)) as [->|Havailable]; [done |].
  destruct (recordAt config fingerprint now p) as [record|] eqn:Hrecord.
  - destruct (checkRateLimit_cases config now record)
      as [[Hopen Hfull] | [[Hopen Hroom] | Hover]].
    + rewrite (checkRateLimit_blocked _ _ _ _ Havailable record) by done.
      intros [= <-]. simpl. apply observed_storedText.
    + by rewrite (checkRateLimit_counted _ _ _ _ Havailable record).
    + by rewrite (checkRateLimit_elapsed _ _ _ _ Havailable record).
  - by rewrite checkRateLimit_throws.
Qed.


Lemma recordAt_stored config fingerprint now p stored :
  storedText (storageKey config) (browser p) = Some stored →
  recordAt config fingerprint now p = JSON_parse stored.
Proof. intros Hread. unfold recordAt. by rewrite Hread. Qed.

Lemma recordAt_written config fingerprint now record b state :
  recordAt config fingerprint now
    {| browser := setMultiStorage (storageKey config) (JSON_stringify record) b;
       limiter := state |}
  = Some record.
Proof.
  rewrite (recordAt_stored _ _ _ _ (JSON_stringify record)).
  - apply JSON_parse_stringify.
  - apply storedText_setMultiStorage.
Qed.

Lemma recordAt_observed config fingerprint fingerprint' now p state :
  recordAt config fingerprint now
    {| browser := observed config fingerprint' p; limiter := state |}
  = recordAt config fingerprint now p.
Proof. unfold recordAt. simpl. by rewrite observed_storedText. Qed.

(** C2: with [maxRequests = 2] and [windowMs = 86400000], from a store
    without a record and with an available fingerprint, the calls at
    0, 1000, 2000 and 86400001 answer: admitted with one request left;
    admitted with none left; blocked with none left and [resetTime]
    86400000; admitted with one request left. *)
Theorem checkRateLimit_scenario key fingerprint p0 :
  fingerprint ≠ EmptyString →
  storedText key (browser p0) = None →
  let config :=
    {| maxRequests := 2; windowMs := 86400000; storageKey := key |} in
  let call1 := checkRateLimit config fingerprint 0 p0 in
  let call2 := checkRateLimit config fingerprint 1000 call1.2 in
  let call3 := checkRateLimit config fingerprint 2000 call2.2 in
  let call4 := checkRateLimit config fingerprint 86400001 call3.2 in
  (call1.1 = Returns false ∧ remainingRequests (limiter call1.2) = 1)
  ∧ (call2.1 = Returns false ∧ remainingRequests (limiter call2.2) = 0)
  ∧ (call3.1 = Returns true
     ∧ isLimited (limiter call3.2) = true
     ∧ remainingRequests (limiter call3.2) = 0
     ∧ resetTime (limiter call3.2) = Some 86400000)
  ∧ (call4.1 = Returns false ∧ remainingRequests (limiter call4.2) = 1).
Proof.
  intros Havailable Hnone config. cbv zeta.
  assert (Hfirst : recordAt config fingerprint 0 p0
                   = Some {| timestamp := 0; count := 0;
                             Json.fingerprint := Some fingerprint |})
    by (unfold recordAt; simpl; by rewrite Hnone).
  rewrite (checkRateLimit_counted config fingerprint 0 p0 Havailable _ Hfirst)
    by (simpl; lia).
  simpl.
  rewrite (checkRateLimit_counted config fingerprint 1000 _ Havailable _
             (recordAt_written _ _ _ _ _ _))
    by (simpl; lia).
  simpl.
  rewrite (checkRateLimit_blocked config fingerprint 2000 _ Havailable _
             (recordAt_written _ _ _ _ _ _))
    by (simpl; lia).
  simpl.
  rewrite (checkRateLimit_elapsed config fingerprint 86400001 _ Havailable
             {| timestamp := 0; count := 2;
                Json.fingerprint := Some fingerprint |})
    by (rewrite ?recordAt_observed, ?recordAt_written; simpl; (done || lia)).
  simpl. done.
Qed.


Lemma checkRateLimit_scenario_witness :
  let call1 := checkRateLimit betaConfig "F1" 0 (freshPage betaConfig) in
  let call2 := checkRateLimit betaConfig "F1" 1000 call1.2 in
  let call3 := checkRateLimit betaConfig "F1" 2000 call2.2 in
  let call4 := checkRateLimit betaConfig "F1" 86400001 call3.2 in
  (call1.1 = Returns false ∧ remainingRequests (limiter call1.2) = 1)
  ∧ (call2.1 = Returns false ∧ remainingRequests (limiter call2.2) = 0)
  ∧ (call3.1 = Returns true
     ∧ isLimited (limiter call3.2) = true
     ∧ remainingRequests (limiter call3.2) = 0
     ∧ resetTime (limiter call3.2) = Some 86400000)
  ∧ (call4.1 = Returns false ∧ remainingRequests (limiter call4.2) = 1).
Proof.
  apply (checkRateLimit_scenario "restaurant-search" "F1" (freshPage betaConfig)).
  - discriminate.
  - reflexivity.
Defined.

(** C10: with [maxRequests = 1], a call made once the window of the stored
    record has elapsed is admitted and writes the record
    [{timestamp: now, count: 1}], and the [resetTime] it publishes is the
    old record's [timestamp + windowMs], which is not later than [now] and
    is not the end of the window that has just begun. *)
Theorem checkRateLimit_stale_resetTime config fingerprint now p stored record :
  maxRequests config = 1 →
  fingerprint ≠ EmptyString →
  storedText (storageKey config) (browser p) = Some stored →
  JSON_parse stored = Some record →
  timestamp record + windowMs config <= now →
  let result := checkRateLimit config fingerprint now p in
  let written := JSON_stringify {| timestamp := now; count := 1;
                                   Json.fingerprint := Some fingerprint |} in
  result.1 = Returns false
  ∧ localStorage (browser result.2) !! storageKey config = Some written
  ∧ sessionStorage (browser result.2) !! storageKey config = Some written
  ∧ storedText (storageKey config) (browser result.2) = Some written
  ∧ isLimited (limiter result.2) = false
  ∧ remainingRequests (limiter result.2) = 0
  ∧ resetTime (limiter result.2) = Some (timestamp record + windowMs config)
  ∧ timestamp record + windowMs config <= now
  ∧ (0 < windowMs config →
     resetTime (limiter result.2) ≠ Some (now + windowMs config)).
Proof.
  intros Hcap Havailable Hread Hparse Hover. cbv zeta.
  rewrite (checkRateLimit_elapsed config fingerprint now p Havailable record)
    by (rewrite ?(recordAt_stored _ _ _ _ stored); done || lia).
  rewrite Hcap. simpl.
  rewrite setMultiStorage_local, setMultiStorage_session, !lookup_insert_eq.
  rewrite storedText_setMultiStorage.
  repeat split; try done. intros Hwindow [= Heq]. lia.
Qed.

Lemma checkRateLimit_stale_resetTime_witness :
  let result := checkRateLimit singleConfig "F1" 86400000 searchedOnceSingle in
  let written := JSON_stringify {| timestamp := 86400000; count := 1;
                                   Json.fingerprint := Some "F1" |} in
  result.1 = Returns false
  ∧ localStorage (browser result.2) !! "restaurant-search" = Some written
  ∧ sessionStorage (browser result.2) !! "restaurant-search" = Some written
  ∧ storedText "restaurant-search" (browser result.2) = Some written
  ∧ isLimited (limiter result.2) = false
  ∧ remainingRequests (limiter result.2) = 0
  ∧ resetTime (limiter result.2) = Some (0 + 86400000)
  ∧ 0 + 86400000 <= 86400000
  ∧ (0 < 86400000 → resetTime (limiter result.2) ≠ Some (86400000 + 86400000)).
Proof.
  apply (checkRateLimit_stale_resetTime singleConfig "F1" 86400000
           searchedOnceSingle (JSON_stringify firstRecord) firstRecord).
  - reflexivity.
  - discriminate.
  - vm_compute. reflexivity.
  - vm_compute. reflexivity.
  - simpl. lia.
Defined.


(** *** A stored text that does not parse *)

(** The mount effect drops such a text from the two web storages. *)
Lemma mountEffect_discards config fingerprint now p stored :
  fingerprint ≠ EmptyString →
  storedText (storageKey config) (browser p) = Some stored →
  JSON_parse stored = None →
  localStorage (browser (mountEffect config fingerprint now p))
    !! storageKey config = None
  ∧ sessionStorage (browser (mountEffect config fingerprint now p))
      !! storageKey config = None
  ∧ limiter (mountEffect config fingerprint now p) = limiter p.
Proof.
  intros Havailable Hread Hparse. unfold mountEffect.
  destruct fingerprint; [done |].
  pose proof (storedText_truthy _ _ _ Hread) as Htruthy.
  unfold storedText in Hread.
  destruct (getMultiStorage _ _) as [value b]. simpl in Hread. subst value.
  rewrite Htruthy, Hparse. simpl. by rewrite !lookup_delete_eq.
Qed.

(** C4, at a page whose backends hold the text [{corrupt]: the mount
    effect drops the text from [localStorage] and [sessionStorage], as the
    claim says, but [checkRateLimit] ends with the [SyntaxError] of its
    unguarded [JSON.parse] (line 117) instead of admitting the call: both
    on the page as it is and after the mount effect, when the read falls
    back on the cookie. *)
Theorem checkRateLimit_corrupt_record_throws :
  JSON_parse corruptText = None
  ∧ (checkRateLimit betaConfig "F1" 1000 corruptPage).1 = Throws_SyntaxError
  ∧ (let mounted := mountEffect betaConfig "F1" 1000 corruptPage in
     localStorage (browser mounted) !! "restaurant-search" = None
     ∧ sessionStorage (browser mounted) !! "restaurant-search" = None
     ∧ (checkRateLimit betaConfig "F1" 2000 mounted).1 = Throws_SyntaxError).
Proof. repeat split; vm_compute; reflexivity. Qed.

(** *** Redundancy of the three backends *)

(** C5 as stated fails when the lost backend is [sessionStorage] or the
    cookie: the read answers from [localStorage] and writes nothing. *)
Lemma getMultiStorage_leaves_lower_backends :
  let written :=
    setMultiStorage "restaurant-search" (JSON_stringify firstRecord)
      emptyBrowser in
  let withoutSession := sessionStorage_removeItem "restaurant-search" written in
  let withoutCookie := deleteCookie "restaurant-search" written in
  (getMultiStorage "restaurant-search" withoutSession).1
  = Some (JSON_stringify firstRecord)
  ∧ sessionStorage (getMultiStorage "restaurant-search" withoutSession).2
      !! "restaurant-search" = None
  ∧ (getMultiStorage "restaurant-search" withoutCookie).1
    = Some (JSON_stringify firstRecord)
  ∧ cookieJar (getMultiStorage "restaurant-search" withoutCookie).2 = [].
Proof. repeat split; vm_compute; reflexivity. Qed.

(** C5, amended: after a record is written to the three backends and
    lost from one of them, a read returns the text of the record; it
    writes the text back when the lost backend is [localStorage], and
    leaves the store as it is when the lost backend is [sessionStorage] or
    the cookie. *)
Theorem getMultiStorage_after_one_loss key record b :
  let value := JSON_stringify record in
  let written := setMultiStorage key value b in
  ((getMultiStorage key (localStorage_removeItem key written)).1 = Some value
   ∧ localStorage (getMultiStorage key (localStorage_removeItem key written)).2
       !! key = Some value)
  ∧ getMultiStorage key (sessionStorage_removeItem key written)
    = (Some value, sessionStorage_removeItem key written)
  ∧ getMultiStorage key (deleteCookie key written)
    = (Some value, deleteCookie key written).
Proof.
  cbv zeta. split; [| split].
  - unfold getMultiStorage. simpl. rewrite lookup_delete_eq. simpl.
    rewrite setMultiStorage_session, lookup_insert_eq. simpl.
    by rewrite lookup_insert_eq.
  - apply getMultiStorage_local. simpl.
    by rewrite setMultiStorage_local, lookup_insert_eq.
  - apply getMultiStorage_local. simpl.
    by rewrite setMultiStorage_local, lookup_insert_eq.
Qed.

(** *** [reset] *)

(** C6 as stated fails on the page of a first search: [reset] leaves the
    cookie, and the next read finds the record there. *)
Lemma reset_leaves_cookie_record :
  cookieJar (browser (reset betaConfig searchedOnce))
  = [("restaurant-search", JSON_stringify firstRecord)]
  ∧ storedText "restaurant-search" (browser (reset betaConfig searchedOnce))
    = Some (JSON_stringify firstRecord).
Proof. split; vm_compute; reflexivity. Qed.

(** C6, amended: [reset] removes the record from [localStorage] and
    [sessionStorage] and publishes the fresh state ([isLimited = false],
    [remainingRequests = maxRequests], [resetTime = null]) whatever the
    page holds; it leaves the cookie as it is, so that the next read
    finds what the cookie holds under the key, and no record only when
    the cookie holds none. *)
Theorem reset_clears_web_storages config p :
  localStorage (browser (reset config p)) !! storageKey config = None
  ∧ sessionStorage (browser (reset config p)) !! storageKey config = None
  ∧ cookieJar (browser (reset config p)) = cookieJar (browser p)
  ∧ limiter (reset config p)
    = {| isLimited := false; remainingRequests := maxRequests config;
         resetTime := None |}
  ∧ storedText (storageKey config) (browser (reset config p))
    = findCookie (storageKey config)
        (split ";" (renderCookies (cookieJar (browser p)))).
Proof.
  unfold reset, storedText, getMultiStorage. simpl.
  rewrite !lookup_delete_eq. simpl.
  repeat split. by destruct (findCookie _ _).
Qed.

(** *** The manipulation signal *)

(** C8 as stated fails when the record is held by the cookie alone, as
    after [reset]: the check reads the two web storages only and answers
    [false]. *)
Lemma detectManipulation_misses_cookie_record :
  let p := reset betaConfig searchedOnce in
  (storedText "restaurant-search" (browser p) ≫= JSON_parse)
  = Some {| timestamp := 0; count := 1; Json.fingerprint := Some "F1" |}
  ∧ (detectManipulation betaConfig "F2" p).1 = false.
Proof. split; vm_compute; reflexivity. Qed.

(** C8, amended: when the record that a read finds in [localStorage] or,
    failing that, in [sessionStorage] carries a non-empty fingerprint
    other than the available fingerprint of the session,
    [detectManipulation] answers [true] and leaves the limiter state, the
    stored record and the cookies as they are. *)
Theorem detectManipulation_flags_mismatch
    config fingerprint p stored record stamped :
  fingerprint ≠ EmptyString →
  truthy (localStorage (browser p) !! storageKey config) = Some stored
  ∨ (truthy (localStorage (browser p) !! storageKey config) = None
     ∧ truthy (sessionStorage (browser p) !! storageKey config) = Some stored) →
  JSON_parse stored = Some record →
  Json.fingerprint record = Some stamped →
  stamped ≠ EmptyString →
  stamped ≠ fingerprint →
  (detectManipulation config fingerprint p).1 = true
  ∧ limiter (detectManipulation config fingerprint p).2 = limiter p
  ∧ storedText (storageKey config) (browser p) = Some stored
  ∧ storedText (storageKey config)
      (browser (detectManipulation config fingerprint p).2) = Some stored
  ∧ cookieJar (browser (detectManipulation config fingerprint p).2)
    = cookieJar (browser p).
Proof.
  intros Havailable Hwhere Hparse Hstamp Hnonempty Hdiffer.
  assert (Hread : storedText (storageKey config) (browser p) = Some stored).
  { destruct Hwhere as [Hl | [Hl Hs]].
    - by apply storedText_local.
    - unfold storedText, getMultiStorage. by rewrite Hl, Hs. }
  split; [| by rewrite detectManipulation_limiter,
              detectManipulation_storedText, detectManipulation_cookieJar].
  unfold detectManipulation. destruct fingerprint as [|c fingerprint]; [done |].
  destruct Hwhere as [Hl | [Hl Hs]]; rewrite Hl.
  - destruct (truthy (sessionStorage _ !! _)); [| done].
    rewrite Hparse, Hstamp.
    replace (truthy (Some stamped)) with (Some stamped)
      by (by destruct stamped).
    cbn [fst]. by apply negb_true_iff, String.eqb_neq.
  - by rewrite Hs.
Qed.

Lemma detectManipulation_flags_mismatch_witness :
  (detectManipulation betaConfig "F2" searchedOnce).1 = true
  ∧ limiter (detectManipulation betaConfig "F2" searchedOnce).2
    = limiter searchedOnce
  ∧ storedText "restaurant-search" (browser searchedOnce)
    = Some (JSON_stringify firstRecord)
  ∧ storedText "restaurant-search"
      (browser (detectManipulation betaConfig "F2" searchedOnce).2)
    = Some (JSON_stringify firstRecord)
  ∧ cookieJar (browser (detectManipulation betaConfig "F2" searchedOnce).2)
    = cookieJar (browser searchedOnce).
Proof.
  apply (detectManipulation_flags_mismatch betaConfig "F2" searchedOnce
           (JSON_stringify firstRecord) firstRecord "F1").
  - discriminate.
  - left. vm_compute. reflexivity.
  - vm_compute. reflexivity.
  - reflexivity.
  - discriminate.
  - discriminate.
Defined.

End ClientSpec.

(** ** Both gates *)

Module GateSpec.

Import Json Client.

(** C1: under one configuration (with a cap of at least one request) and
    one identity, in every state that calls can reach, the stored count
    does not exceed [maxRequests], at every clock reading and so while
    the window is open; and a call that is denied leaves the stored
    record as it is.  Server: the map of [isRateLimited], with the
    sweeps.  Client: the record a read of the three backends finds. *)
Theorem count_never_exceeds_cap
    (cfg : Server.RateLimitConfig) (m : gmap string Server.CountRecord)
    (config : RateLimitConfig) (fingerprint : string) (p : Page) :
  1 <= Server.maxRequests cfg →
  Server.reachable cfg m →
  1 <= maxRequests config →
  reachable config fingerprint p →
  ((∀ clientId record,
      m !! clientId = Some record →
      Server.count record <= Server.maxRequests cfg)
   ∧ (∀ now clientId,
        Server.limited (Server.isRateLimited cfg now clientId m).1 = true →
        (Server.isRateLimited cfg now clientId m).2 = m))
  ∧ ((∀ stored,
        storedText (storageKey config) (browser p) = Some stored →
        ∃ record,
          JSON_parse stored = Some record
          ∧ count record <= maxRequests config)
     ∧ (∀ now p',
          checkRateLimit config fingerprint now p = (Returns true, p') →
          storedText (storageKey config) (browser p')
          = storedText (storageKey config) (browser p))).
Proof.
  intros Hcap Hreach Hcap' Hreach'. split; split.
  - intros clientId record Hrecord.
    by destruct (ServerSpec.reachable_bounded cfg Hcap m Hreach _ _ Hrecord).
  - intros now clientId. apply ServerSpec.isRateLimited_denied_keeps.
  - by apply (ClientSpec.reachable_count_bounded config fingerprint).
  - intros now p'. by apply ClientSpec.checkRateLimit_denied_keeps.
Qed.

Lemma count_never_exceeds_cap_witness :
  ((∀ clientId record,
      Samples.exhausted !! clientId = Some record →
      Server.count record <= Server.maxRequests Server.RATE_LIMIT)
   ∧ (∀ now clientId,
        Server.limited
          (Server.isRateLimited Server.RATE_LIMIT now clientId
             Samples.exhausted).1 = true →
        (Server.isRateLimited Server.RATE_LIMIT now clientId
           Samples.exhausted).2 = Samples.exhausted))
  ∧ ((∀ stored,
        storedText (storageKey ClientSamples.betaConfig)
          (browser ClientSamples.searchedOnce) = Some stored →
        ∃ record,
          JSON_parse stored = Some record
          ∧ count record <= maxRequests ClientSamples.betaConfig)
     ∧ (∀ now p',
          checkRateLimit ClientSamples.betaConfig "F1" now
            ClientSamples.searchedOnce = (Returns true, p') →
          storedText (storageKey ClientSamples.betaConfig) (browser p')
          = storedText (storageKey ClientSamples.betaConfig)
              (browser ClientSamples.searchedOnce))).
Proof.
  apply (count_never_exceeds_cap Server.RATE_LIMIT Samples.exhausted
           ClientSamples.betaConfig "F1" ClientSamples.searchedOnce).
  - simpl. lia.
  - replace Samples.exhausted
      with (Server.isRateLimited Server.RATE_LIMIT 1 "203.0.113.5_abcd1234"
              (Server.isRateLimited Server.RATE_LIMIT 0
                 "203.0.113.5_abcd1234" ∅).2).2
      by (vm_compute; reflexivity).
    apply Server.reachable_step
      with (Server.isRateLimited Server.RATE_LIMIT 0
              "203.0.113.5_abcd1234" ∅).2;
      [| apply Server.step_request].
    apply Server.reachable_step with ∅;
      [apply Server.reachable_empty | apply Server.step_request].
  - simpl. lia.
  - apply reachable_check. apply reachable_start. reflexivity.
Defined.

End GateSpec.

(** * Further properties

    ** The server: isolation, sweeps, the cap over a window, the handler *)

Module ServerMore.

Import JsString Server Route Samples MoreSamples.

#[local] Arguments String.append : simpl nomatch.

(** X1: a request of one client leaves the record of every other client
    as it is. *)
Theorem isRateLimited_other_clients cfg now clientId other
    (m : gmap string CountRecord) :
  clientId ≠ other →
  (isRateLimited cfg now clientId m).2 !! other = m !! other.
Proof.
  intros Hne.
  destruct (ServerSpec.isRateLimited_cases cfg now clientId m)
    as [-> | [(record & Hrec & Hmax & ->) | (record & Hrec & Hmax & ->)]];
    simpl; by rewrite ?lookup_insert_ne.
Qed.

Lemma isRateLimited_other_clients_witness :
  (isRateLimited RATE_LIMIT 1000 "198.51.100.7_abcd1234" exhausted).2
    !! "203.0.113.5_abcd1234"
  = exhausted !! "203.0.113.5_abcd1234".
Proof. apply isRateLimited_other_clients. discriminate. Defined.

Lemma sweep_lookup cfg now (m : gmap string CountRecord) clientId :
  sweep cfg now m !! clientId
  = match m !! clientId with
    | Some record =>
        if decide (windowMs cfg * 2 < now - timestamp record)
        then None else Some record
    | None => None
    end.
Proof.
  unfold sweep.
  destruct (m !! clientId) as [record|] eqn:Hm.
  - case_decide as Hstale.
    + apply map_lookup_filter_None. right. intros record' Hrec'.
      rewrite Hm in Hrec'. injection Hrec' as <-. unfold stale. simpl. tauto.
    + apply map_lookup_filter_Some. split; [done |]. by unfold stale.
  - apply map_lookup_filter_None. by left.
Qed.

(** X2: a sweep changes no later decision.  For a window that is not
    negative, a request made at or after the time of a sweep gets the same
    verdict, and leaves the same record for its client, as if the sweep
    had not run. *)
Theorem sweep_keeps_verdicts cfg swept now clientId
    (m : gmap string CountRecord) :
  0 <= windowMs cfg →
  swept <= now →
  (isRateLimited cfg now clientId (sweep cfg swept m)).1
  = (isRateLimited cfg now clientId m).1
  ∧ (isRateLimited cfg now clientId (sweep cfg swept m)).2 !! clientId
    = (isRateLimited cfg now clientId m).2 !! clientId.
Proof.
  intros Hwindow Hlater.
  pose proof (sweep_lookup cfg swept m clientId) as Hswept.
  destruct (m !! clientId) as [record|] eqn:Hm.
  - case_decide as Hstale.
    + rewrite (ServerSpec.isRateLimited_first cfg now clientId _ Hswept).
      rewrite (ServerSpec.isRateLimited_elapsed cfg now clientId m record)
        by (done || lia).
      simpl. by rewrite !lookup_insert_eq.
    + unfold isRateLimited. rewrite Hswept, Hm.
      destruct (windowMs cfg <? now - timestamp record);
        [| destruct (maxRequests cfg <=? count record)];
        simpl; rewrite ?lookup_insert_eq; try done.
      by rewrite Hswept, Hm.
  - rewrite (ServerSpec.isRateLimited_first cfg now clientId _ Hswept).
    rewrite (ServerSpec.isRateLimited_first cfg now clientId _ Hm).
    simpl. by rewrite !lookup_insert_eq.
Qed.


Lemma sweep_keeps_verdicts_witness :
  (isRateLimited RATE_LIMIT 200000001 "203.0.113.5_abcd1234"
     (sweep RATE_LIMIT 200000000 exhausted)).1
  = (isRateLimited RATE_LIMIT 200000001 "203.0.113.5_abcd1234" exhausted).1
  ∧ (isRateLimited RATE_LIMIT 200000001 "203.0.113.5_abcd1234"
       (sweep RATE_LIMIT 200000000 exhausted)).2 !! "203.0.113.5_abcd1234"
    = (isRateLimited RATE_LIMIT 200000001 "203.0.113.5_abcd1234"
         exhausted).2 !! "203.0.113.5_abcd1234".
Proof. apply sweep_keeps_verdicts; simpl; lia. Defined.

(** *** The cap over a window *)

Lemma server_admissions_with_record cfg clientId events :
  0 <= windowMs cfg →
  ∀ (m : gmap string CountRecord) record,
    m !! clientId = Some record →
    Forall (λ e, eventTime e - timestamp record <= windowMs cfg) events →
    Z.of_nat (admissions cfg clientId events m)
    <= Z.max 0 (maxRequests cfg - count record).
Proof.
  intros Hwindow.
  induction events as [|e events IH]; intros m record Hm Hall; simpl; [lia |].
  apply Forall_cons in Hall as [Hnow Hall].
  destruct e as [now id | now]; simpl in Hnow.
  - destruct (decide (id = clientId)) as [->|Hne].
    + rewrite String.eqb_refl.
      destruct (Z.lt_ge_cases (count record) (maxRequests cfg)) as [Hroom|Hfull].
      * rewrite (ServerSpec.isRateLimited_counted cfg now clientId m record)
          by done.
        simpl.
        specialize (IH (<[clientId := {| count := count record + 1;
                                         timestamp := timestamp record |}]> m)
                      {| count := count record + 1;
                         timestamp := timestamp record |}
                      (lookup_insert_eq _ _ _) Hall).
        simpl in IH. lia.
      * rewrite (ServerSpec.isRateLimited_denied cfg now clientId m record)
          by done.
        simpl. specialize (IH m record Hm Hall). lia.
    + pose proof (isRateLimited_other_clients cfg now id clientId m Hne)
        as Hother.
      destruct (isRateLimited cfg now id m) as [verdict m'].
      simpl in Hother.
      rewrite (proj2 (String.eqb_neq id clientId) Hne). simpl.
      apply (IH m' record); [by rewrite Hother | done].
  - apply (IH _ record); [| done].
    rewrite sweep_lookup, Hm. case_decide; [lia | done].
Qed.

(** X3: the cap holds over a window.  When a client without a record
    makes a request at [first], then over any run of requests (of any
    clients) and sweeps whose clock readings are at most
    [first + windowMs], at most [maxRequests] requests of that client are
    admitted, the first one included. *)
Theorem server_admissions_within_window cfg clientId first events
    (m : gmap string CountRecord) :
  1 <= maxRequests cfg →
  0 <= windowMs cfg →
  m !! clientId = None →
  Forall (λ e, eventTime e - first <= windowMs cfg) events →
  Z.of_nat (admissions cfg clientId (Request first clientId :: events) m)
  <= maxRequests cfg.
Proof.
  intros Hcap Hwindow Hm Hall. simpl.
  rewrite (ServerSpec.isRateLimited_first cfg first clientId m Hm).
  rewrite String.eqb_refl. simpl.
  pose proof (server_admissions_with_record cfg clientId events Hwindow
                (<[clientId := {| count := 1; timestamp := first |}]> m)
                {| count := 1; timestamp := first |}
                (lookup_insert_eq _ _ _) Hall) as Hrest.
  simpl in Hrest. lia.
Qed.

Lemma server_admissions_within_window_witness :
  Z.of_nat
    (admissions RATE_LIMIT "203.0.113.5_abcd1234"
       [Request 0 "203.0.113.5_abcd1234";
        Request 1000 "203.0.113.5_abcd1234";
        Sweep 2000;
        Request 3000 "198.51.100.7_abcd1234";
        Request 86400000 "203.0.113.5_abcd1234"] ∅)
  <= maxRequests RATE_LIMIT.
Proof.
  apply server_admissions_within_window.
  - simpl. lia.
  - simpl. lia.
  - reflexivity.
  - repeat constructor; simpl; lia.
Defined.

(** *** The hash of the user agent *)

Lemma base64_first_sixteen bytes :
  slice0 16 (base64 bytes) = slice0 16 (base64 (take 12 bytes)).
Proof.
  do 12 (destruct bytes as [|? bytes]; [reflexivity |]).
  reflexivity.
Qed.

(** X4: the hash of the user agent is decided by the first 12 bytes of
    the user agent.  Two requests with the same address headers whose user
    agents (cut at 100 characters, in UTF-8) agree on their first 12 bytes
    get the same identifier. *)
Theorem getClientIdentifier_hash_prefix (request1 request2 : NextRequest) :
  headers request1 !! "x-forwarded-for" = headers request2 !! "x-forwarded-for" →
  headers request1 !! "x-real-ip" = headers request2 !! "x-real-ip" →
  headers request1 !! "x-client-ip" = headers request2 !! "x-client-ip" →
  take 12 (utf8 (slice0 100 (userAgentOf request1)))
  = take 12 (utf8 (slice0 100 (userAgentOf request2))) →
  getClientIdentifier request1 = getClientIdentifier request2.
Proof.
  intros Hf Hr Hc Hu. unfold getClientIdentifier.
  rewrite Hf, Hr, Hc. f_equal. f_equal.
  fold (userAgentOf request1). fold (userAgentOf request2).
  rewrite (base64_first_sixteen (utf8 (slice0 100 (userAgentOf request1)))).
  rewrite (base64_first_sixteen (utf8 (slice0 100 (userAgentOf request2)))).
  by rewrite Hu.
Qed.


Lemma getClientIdentifier_hash_prefix_witness :
  getClientIdentifier request_a = getClientIdentifier request_c.
Proof.
  apply getClientIdentifier_hash_prefix; vm_compute; reflexivity.
Defined.

(** *** The handler *)

Lemma ceilDiv_bounds a b :
  0 < b → (ceilDiv a b - 1) * b < a <= ceilDiv a b * b.
Proof.
  intros Hb. unfold ceilDiv.
  pose proof (Z.div_mod (- a) b ltac:(lia)) as Hdiv.
  pose proof (Z.mod_pos_bound (- a) b Hb) as Hmod. nia.
Qed.

Section Handler.

Context {Data : Type}.
Variable cfg : RateLimitConfig.
Variable searchParamsOf : string → gmap string string.
Variable fetch : string → FetchOutcome Data.
Variables now now' : Z.
Variable request : NextRequest.
Variable m : gmap string CountRecord.

(** X5: a denied request.  When the record of the client is within its
    window and has reached the cap (and its reset time is not 0), the
    handler answers 429 with the four rate-limit headers, leaves the map
    as it is and fetches nothing; [Retry-After] is the number of seconds
    up to the reset time, rounded up, from the second clock reading, and
    it is at least 1 exactly when that reading is before the reset
    time. *)
Theorem GET_denied record :
  m !! getClientIdentifier request = Some record →
  now - timestamp record <= windowMs cfg →
  maxRequests cfg <= count record →
  timestamp record + windowMs cfg ≠ 0 →
  let served := GET cfg searchParamsOf fetch now now' request m in
  let retryAfter := ceilDiv (timestamp record + windowMs cfg - now') 1000 in
  response served
  = {| status := 429;
       responseHeaders :=
         [("Retry-After", toString retryAfter);
          ("X-RateLimit-Limit", toString (maxRequests cfg));
          ("X-RateLimit-Remaining", "0");
          ("X-RateLimit-Reset", toString (timestamp record + windowMs cfg))];
       body := RateLimitExceeded retryAfter (getClientIdentifier request) |}
  ∧ counts served = m
  ∧ fetched served = []
  ∧ (retryAfter - 1) * 1000 < timestamp record + windowMs cfg - now'
      <= retryAfter * 1000
  ∧ (1 <= retryAfter ↔ now' < timestamp record + windowMs cfg).
Proof.
  intros Hm Hopen Hfull Hreset. cbv zeta. unfold GET.
  rewrite (ServerSpec.isRateLimited_denied cfg now _ m record) by done.
  simpl. rewrite (proj2 (Z.eqb_neq _ _) Hreset).
  pose proof (ceilDiv_bounds (timestamp record + windowMs cfg - now') 1000
                ltac:(lia)).
  repeat split; lia.
Qed.

(** X6: the quota is taken before the query is looked at.  A request
    without a latitude or a longitude, from a client with room left in
    its window, is answered 400 without any fetch, and the count of the
    client has gone up by one. *)
Theorem GET_missing_parameters_counted old :
  m !! getClientIdentifier request = Some old →
  now - timestamp old <= windowMs cfg →
  count old < maxRequests cfg →
  truthy (searchParamsOf (url request) !! "latitude") = None
  ∨ truthy (searchParamsOf (url request) !! "longitude") = None →
  GET cfg searchParamsOf fetch now now' request m
  = {| response := {| status := 400; responseHeaders := [];
                      body := MissingParameters |};
       counts := <[getClientIdentifier request :=
                     {| count := count old + 1;
                        timestamp := timestamp old |}]> m;
       fetched := [] |}.
Proof.
  intros Hold Hopen Hroom Hmissing. unfold GET.
  rewrite (ServerSpec.isRateLimited_counted cfg now _ m old) by done.
  simpl. destruct Hmissing as [-> | ->]; [done |].
  by destruct (truthy (searchParamsOf (url request) !! "latitude")).
Qed.

Lemma GET_counts :
  counts (GET cfg searchParamsOf fetch now now' request m)
  = (isRateLimited cfg now (getClientIdentifier request) m).2.
Proof.
  unfold GET.
  destruct (isRateLimited cfg now (getClientIdentifier request) m)
    as [verdict m'].
  destruct (limited verdict); [done |]. simpl.
  destruct (truthy (searchParamsOf (url request) !! "latitude"));
    destruct (truthy (searchParamsOf (url request) !! "longitude")); try done.
  by destruct (fetch _) as [|[] httpStatus [data|]].
Qed.

Lemma GET_fetched :
  (List.length (fetched (GET cfg searchParamsOf fetch now now' request m))
   <= if limited (isRateLimited cfg now (getClientIdentifier request) m).1
      then 0 else 1)%nat.
Proof.
  unfold GET.
  destruct (isRateLimited cfg now (getClientIdentifier request) m)
    as [verdict m'].
  simpl. destruct (limited verdict); [done |]. simpl.
  destruct (truthy (searchParamsOf (url request) !! "latitude"));
    destruct (truthy (searchParamsOf (url request) !! "longitude"));
    simpl; try lia.
  destruct (fetch _) as [|[] httpStatus [data|]]; simpl; lia.
Qed.

End Handler.


Lemma upstreamCalls_admissions {Data : Type} cfg searchParamsOf clientId
    (arrivals : list (traffic Data)) :
  ∀ m, (upstreamCalls cfg searchParamsOf clientId arrivals m
        <= admissions cfg clientId (eventsOf arrivals) m)%nat.
Proof.
  induction arrivals as [|[now now' request fetch | now] rest IH];
    intros m; simpl; [lia | |].
  - rewrite GET_counts.
    pose proof (GET_fetched cfg searchParamsOf fetch now now' request m)
      as Hfetched.
    specialize (IH (isRateLimited cfg now (getClientIdentifier request) m).2).
    destruct (isRateLimited cfg now (getClientIdentifier request) m)
      as [verdict m'].
    simpl in *.
    destruct (String.eqb _ clientId), (limited verdict); simpl; lia.
  - apply IH.
Qed.

Lemma eventsOf_times {Data : Type} (arrivals : list (traffic Data)) bound :
  Forall (λ t, trafficTime t <= bound) arrivals →
  Forall (λ e, eventTime e <= bound) (eventsOf arrivals).
Proof.
  induction 1 as [|[now now' request fetch | now] rest Hhead _ IH];
    simpl; constructor; done.
Qed.

(** X7: the upstream is fetched at most [maxRequests] times per client
    and window.  When a client without a record sends a request at [now],
    then over any further traffic with clock readings at most
    [now + windowMs], whatever the queries and however the upstream
    answers, the handler makes at most [maxRequests] fetches for that
    client. *)
Theorem upstreamCalls_within_window {Data : Type} cfg searchParamsOf
    now now' request fetch (arrivals : list (traffic Data))
    (m : gmap string CountRecord) :
  1 <= maxRequests cfg →
  0 <= windowMs cfg →
  m !! getClientIdentifier request = None →
  Forall (λ t, trafficTime t <= now + windowMs cfg) arrivals →
  Z.of_nat (upstreamCalls cfg searchParamsOf (getClientIdentifier request)
              (Arrives now now' request fetch :: arrivals) m)
  <= maxRequests cfg.
Proof.
  intros Hcap Hwindow Hm Hall.
  pose proof (upstreamCalls_admissions cfg searchParamsOf
                (getClientIdentifier request)
                (Arrives now now' request fetch :: arrivals) m) as Hle.
  pose proof (server_admissions_within_window cfg (getClientIdentifier request) now
                (eventsOf arrivals) m Hcap Hwindow Hm) as Hquota.
  simpl eventsOf in Hle.
  assert (Htimes : Forall (λ e, eventTime e - now <= windowMs cfg)
                     (eventsOf arrivals)).
  { apply eventsOf_times in Hall. eapply Forall_impl; [exact Hall |].
    simpl. intros e He. lia. }
  specialize (Hquota Htimes). lia.
Qed.

Lemma GET_denied_witness :
  status (response (GET RATE_LIMIT allParams up 1000 1500 request_a busy)) = 429
  ∧ fetched (GET RATE_LIMIT allParams up 1000 1500 request_a busy) = []
  ∧ counts (GET RATE_LIMIT allParams up 1000 1500 request_a busy) = busy.
Proof.
  destruct (GET_denied RATE_LIMIT allParams up 1000 1500 request_a busy
              {| count := 2; timestamp := 0 |})
    as (Hresponse & Hcounts & Hfetched & _).
  - vm_compute. reflexivity.
  - simpl. lia.
  - simpl. lia.
  - simpl. lia.
  - rewrite Hresponse. split; [reflexivity | by split].
Defined.

Lemma GET_missing_parameters_counted_witness :
  GET RATE_LIMIT noParams down 1000 1500 request_a halfUsed
  = {| response := {| status := 400; responseHeaders := [];
                      body := MissingParameters |};
       counts := <[getClientIdentifier request_a :=
                     {| count := 1 + 1; timestamp := 0 |}]> halfUsed;
       fetched := [] |}.
Proof.
  apply (GET_missing_parameters_counted RATE_LIMIT noParams down 1000 1500
           request_a halfUsed {| count := 1; timestamp := 0 |}).
  - vm_compute. reflexivity.
  - simpl. lia.
  - simpl. lia.
  - left. reflexivity.
Defined.

Lemma upstreamCalls_within_window_witness :
  Z.of_nat
    (upstreamCalls RATE_LIMIT allParams (getClientIdentifier request_a)
       [Arrives 0 1 request_a up;
        Arrives 1000 1001 request_a down;
        Sweeps 2000;
        Arrives 3000 3001 request_a up] ∅)
  <= maxRequests RATE_LIMIT.
Proof.
  apply (upstreamCalls_within_window RATE_LIMIT allParams 0 1 request_a up).
  - simpl. lia.
  - simpl. lia.
  - reflexivity.
  - repeat constructor; simpl; lia.
Defined.

End ServerMore.

(** ** The client: the cap over a window, what the hook shows, the mount
    effect, the manipulation check *)

Module ClientMore.

Import JsString Json Client JsonFacts ClientSpec Session ClientSamples
  MoreSamples.

#[local] Arguments String.append : simpl nomatch.

(** *** The cap over a window *)





(** *** What the hook publishes *)

Lemma reachable_record_in_range config fingerprint p :
  1 <= maxRequests config →
  reachable config fingerprint p →
  record_in_range config (browser p).
Proof.
  intros Hcap. induction 1 as [p Hnone | now p _ IH].
  { intros stored. by rewrite Hnone. }
  destruct (decide (fingerprint = EmptyString)) as [->|Havailable]; [done |].
  assert (Hrecord : ∃ record,
            recordAt config fingerprint now p = Some record
            ∧ 0 <= count record <= maxRequests config).
  { unfold recordAt.
    destruct (storedText _ (browser p)) as [stored|] eqn:Hread.
    - destruct (IH stored Hread) as (record & -> & Hrange).
      exists record. split; [done | lia].
    - eexists. split; [done |]. simpl. lia. }
  destruct Hrecord as (record & Hrecord & Hrange).
  destruct (checkRateLimit_cases config now record)
    as [[Hopen Hfull] | [[Hopen Hroom] | Hover]].
  - rewrite (checkRateLimit_blocked _ _ _ _ Havailable record) by done.
    simpl. intros stored. rewrite observed_storedText. apply IH.
  - rewrite (checkRateLimit_counted _ _ _ _ Havailable record) by done.
    simpl. intros stored. rewrite storedText_setMultiStorage. intros [= <-].
    eexists. rewrite JSON_parse_stringify. split; [done |]. simpl. lia.
  - rewrite (checkRateLimit_elapsed _ _ _ _ Havailable record) by done.
    simpl. intros stored. rewrite storedText_setMultiStorage. intros [= <-].
    eexists. rewrite JSON_parse_stringify. split; [done |]. simpl. lia.
Qed.

(** X9: what a call shows agrees with what it answers.  On every page
    that calls can reach, with a fingerprint and a cap of at least one,
    the call answers the [isLimited] it publishes, the published
    [remainingRequests] lies between 0 and [maxRequests - 1], is 0 when
    limited, and a [resetTime] is published exactly when no request
    remains. *)
Theorem checkRateLimit_publishes config fingerprint now p :
  1 <= maxRequests config →
  fingerprint ≠ EmptyString →
  reachable config fingerprint p →
  let answer := (checkRateLimit config fingerprint now p).1 in
  let shown := limiter (checkRateLimit config fingerprint now p).2 in
  answer = Returns (isLimited shown)
  ∧ 0 <= remainingRequests shown < maxRequests config
  ∧ (isLimited shown = true → remainingRequests shown = 0)
  ∧ (remainingRequests shown = 0 ↔ resetTime shown ≠ None).
Proof.
  intros Hcap Havailable Hreach. cbv zeta.
  pose proof (reachable_record_in_range config fingerprint p Hcap Hreach)
    as Hrange.
  assert (Hrecord : ∃ record,
            recordAt config fingerprint now p = Some record
            ∧ 0 <= count record <= maxRequests config).
  { unfold recordAt.
    destruct (storedText _ (browser p)) as [stored|] eqn:Hread.
    - destruct (Hrange stored Hread) as (record & -> & Hbounds).
      exists record. split; [done | lia].
    - eexists. split; [done |]. simpl. lia. }
  destruct Hrecord as (record & Hrecord & Hbounds).
  destruct (checkRateLimit_cases config now record)
    as [[Hopen Hfull] | [[Hopen Hroom] | Hover]].
  - rewrite (checkRateLimit_blocked _ _ _ _ Havailable record) by done.
    simpl. repeat split; (done || lia).
  - rewrite (checkRateLimit_counted _ _ _ _ Havailable record) by done.
    simpl. destruct (Z.leb_spec (maxRequests config) (count record + 1));
      repeat split; (done || lia).
  - rewrite (checkRateLimit_elapsed _ _ _ _ Havailable record) by done.
    simpl. destruct (Z.leb_spec (maxRequests config) 1);
      repeat split; (done || lia).
Qed.

Lemma checkRateLimit_publishes_witness :
  let answer := (checkRateLimit betaConfig "F1" 1000 searchedOnce).1 in
  let shown := limiter (checkRateLimit betaConfig "F1" 1000 searchedOnce).2 in
  answer = Returns (isLimited shown)
  ∧ 0 <= remainingRequests shown < maxRequests betaConfig
  ∧ (isLimited shown = true → remainingRequests shown = 0)
  ∧ (remainingRequests shown = 0 ↔ resetTime shown ≠ None).
Proof.
  apply checkRateLimit_publishes.
  - simpl. lia.
  - discriminate.
  - apply reachable_check, reachable_start. reflexivity.
Defined.

(** *** The countdown *)

(** X10: the countdown after a denial.  When a call is denied, the page
    holds a reset time later than the clock reading of the call, and
    [getRemainingTime] is the time left to it: positive at the time of
    the call, 0 from the reset time on. *)
Theorem getRemainingTime_after_denial config fingerprint now p p' :
  1 <= maxRequests config →
  checkRateLimit config fingerprint now p = (Returns true, p') →
  ∃ reset,
    resetTime (limiter p') = Some reset
    ∧ 0 < getRemainingTime now p'
    ∧ ∀ later, getRemainingTime later p' = Z.max 0 (reset - later).
Proof.
  intros Hcap.
  destruct (decide (fingerprint = EmptyString)) as [->|Havailable]; [done |].
  destruct (recordAt config fingerprint now p) as [record|] eqn:Hrecord.
  - destruct (checkRateLimit_cases config now record)
      as [[Hopen Hfull] | [[Hopen Hroom] | Hover]].
    + rewrite (checkRateLimit_blocked _ _ _ _ Havailable record) by done.
      intros [= <-]. eexists. split; [done |].
      unfold getRemainingTime. simpl. split; [lia | done].
    + by rewrite (checkRateLimit_counted _ _ _ _ Havailable record).
    + by rewrite (checkRateLimit_elapsed _ _ _ _ Havailable record).
  - by rewrite checkRateLimit_throws.
Qed.


Lemma getRemainingTime_after_denial_witness :
  ∃ reset,
    resetTime (limiter (checkRateLimit betaConfig "F1" 2000 searchedTwice).2)
    = Some reset
    ∧ 0 < getRemainingTime 2000
            (checkRateLimit betaConfig "F1" 2000 searchedTwice).2
    ∧ ∀ later,
        getRemainingTime later
          (checkRateLimit betaConfig "F1" 2000 searchedTwice).2
        = Z.max 0 (reset - later).
Proof.
  apply (getRemainingTime_after_denial betaConfig "F1" 2000 searchedTwice).
  - simpl. lia.
  - vm_compute. reflexivity.
Defined.

(** *** The mount effect *)

(** X11: loading the page within the window consumes nothing and shows
    what the next call will answer.  With a fingerprint and a stored
    record that parses and whose window is open, the mount effect leaves
    the stored text and the cookies as they are, publishes limited (with
    the end of the window) or the requests left, and a call at the same
    clock reading answers the published [isLimited]; when it is not
    limited that call leaves one request less than shown. *)
Theorem mountEffect_open_window config fingerprint now p stored record :
  fingerprint ≠ EmptyString →
  storedText (storageKey config) (browser p) = Some stored →
  JSON_parse stored = Some record →
  now < timestamp record + windowMs config →
  let p' := mountEffect config fingerprint now p in
  storedText (storageKey config) (browser p') = Some stored
  ∧ cookieJar (browser p') = cookieJar (browser p)
  ∧ limiter p'
    = (if maxRequests config <=? count record
       then {| isLimited := true; remainingRequests := 0;
               resetTime := Some (timestamp record + windowMs config) |}
       else {| isLimited := false;
               remainingRequests := maxRequests config - count record;
               resetTime := None |})
  ∧ (checkRateLimit config fingerprint now p').1
    = Returns (isLimited (limiter p'))
  ∧ (isLimited (limiter p') = false →
     remainingRequests (limiter (checkRateLimit config fingerprint now p').2)
     = remainingRequests (limiter p') - 1).
Proof.
  intros Havailable Hread Hparse Hopen. cbv zeta.
  pose proof (storedText_truthy _ _ _ Hread) as Htruthy.
  pose proof (getMultiStorage_again (storageKey config) (browser p)) as Hagain.
  pose proof (getMultiStorage_settles _ _ _ Hread) as [_ Hjar].
  assert (Hmount : mountEffect config fingerprint now p
    = {| browser := (getMultiStorage (storageKey config) (browser p)).2;
         limiter :=
           if maxRequests config <=? count record
           then {| isLimited := true; remainingRequests := 0;
                   resetTime := Some (timestamp record + windowMs config) |}
           else {| isLimited := false;
                   remainingRequests := maxRequests config - count record;
                   resetTime := None |} |}).
  { unfold mountEffect. destruct fingerprint; [done |].
    unfold storedText in Hread.
    destruct (getMultiStorage _ _) as [value b].
    simpl in Hread, Hagain, Hjar |- *. subst value.
    rewrite Htruthy, Hparse. cbv zeta.
    rewrite (proj2 (Z.ltb_lt _ _) Hopen). simpl.
    destruct (maxRequests config <=? count record); [done |].
    by rewrite (proj2 (Z.leb_gt _ _) Hopen). }
  rewrite Hmount. simpl. rewrite Hagain, Hread.
  split; [done |]. split; [done |]. split; [done |].
  match goal with
  | |- context [checkRateLimit _ _ _ ?q] =>
      assert (Hrecord : recordAt config fingerprint now q = Some record)
        by (rewrite (recordAt_stored _ _ _ _ stored);
            [done | simpl; by rewrite Hagain])
  end.
  destruct (Z.leb_spec (maxRequests config) (count record)) as [Hfull|Hroom].
  - rewrite (checkRateLimit_blocked _ _ _ _ Havailable record) by done.
    done.
  - rewrite (checkRateLimit_counted _ _ _ _ Havailable record) by done.
    simpl. split; [done |]. intros _. lia.
Qed.

Lemma mountEffect_open_window_witness :
  storedText "restaurant-search"
    (browser (mountEffect betaConfig "F1" 5000 searchedTwice))
  = Some (JSON_stringify fullRecord)
  ∧ (checkRateLimit betaConfig "F1" 5000
       (mountEffect betaConfig "F1" 5000 searchedTwice)).1
    = Returns (isLimited (limiter (mountEffect betaConfig "F1" 5000
                                     searchedTwice))).
Proof.
  destruct (mountEffect_open_window betaConfig "F1" 5000 searchedTwice
              (JSON_stringify fullRecord) fullRecord)
    as (Hstored & _ & _ & Hanswer & _).
  - discriminate.
  - vm_compute. reflexivity.
  - vm_compute. reflexivity.
  - simpl. lia.
  - split; [exact Hstored | exact Hanswer].
Defined.

(** X12: loading the page after the window has elapsed.  With a
    fingerprint and a stored record that parses and whose window is over,
    the mount effect removes the record from [localStorage] and
    [sessionStorage], leaves the cookies, publishes the fresh state, and
    the next read finds what the cookie holds under the key. *)
Theorem mountEffect_elapsed config fingerprint now p stored record :
  fingerprint ≠ EmptyString →
  storedText (storageKey config) (browser p) = Some stored →
  JSON_parse stored = Some record →
  timestamp record + windowMs config <= now →
  let p' := mountEffect config fingerprint now p in
  localStorage (browser p') !! storageKey config = None
  ∧ sessionStorage (browser p') !! storageKey config = None
  ∧ cookieJar (browser p') = cookieJar (browser p)
  ∧ limiter p' = initialState config
  ∧ storedText (storageKey config) (browser p')
    = findCookie (storageKey config)
        (split ";" (renderCookies (cookieJar (browser p)))).
Proof.
  intros Havailable Hread Hparse Hover. cbv zeta.
  pose proof (storedText_truthy _ _ _ Hread) as Htruthy.
  pose proof (getMultiStorage_settles _ _ _ Hread) as [_ Hjar].
  unfold mountEffect. destruct fingerprint; [done |].
  unfold storedText in Hread.
  destruct (getMultiStorage _ (browser p)) as [value b].
  simpl in Hread, Hjar |- *.
  subst value. rewrite Htruthy, Hparse. cbv zeta.
  rewrite (proj2 (Z.ltb_ge _ _) Hover), (proj2 (Z.leb_le _ _) Hover). simpl.
  rewrite !lookup_delete_eq. repeat split; try done.
  unfold storedText, getMultiStorage. simpl. rewrite !lookup_delete_eq. simpl.
  rewrite Hjar. by destruct (findCookie _ _).
Qed.

Lemma mountEffect_elapsed_witness :
  localStorage (browser (mountEffect betaConfig "F1" 86400000 searchedTwice))
    !! "restaurant-search" = None
  ∧ limiter (mountEffect betaConfig "F1" 86400000 searchedTwice)
    = initialState betaConfig.
Proof.
  destruct (mountEffect_elapsed betaConfig "F1" 86400000 searchedTwice
              (JSON_stringify fullRecord) fullRecord)
    as (Hlocal & _ & _ & Hlimiter & _).
  - discriminate.
  - vm_compute. reflexivity.
  - vm_compute. reflexivity.
  - simpl. lia.
  - split; [exact Hlocal | exact Hlimiter].
Defined.

(** *** The manipulation check *)

Lemma detectManipulation_page config fingerprint p :
  fingerprint ≠ EmptyString →
  (detectManipulation config fingerprint p).2
  = match truthy (localStorage (browser p) !! storageKey config),
          truthy (sessionStorage (browser p) !! storageKey config) with
    | Some localData, None =>
        withBrowser
          (sessionStorage_setItem (storageKey config) localData (browser p)) p
    | None, Some sessionData =>
        withBrowser
          (localStorage_setItem (storageKey config) sessionData (browser p)) p
    | _, _ => p
    end.
Proof.
  intros Havailable. unfold detectManipulation.
  destruct fingerprint as [|c fingerprint]; [done |].
  destruct (truthy (localStorage (browser p) !! storageKey config)) as [l|];
    destruct (truthy (sessionStorage (browser p) !! storageKey config))
      as [s|]; try done.
  destruct (JSON_parse l) as [record|]; [| done].
  by destruct (truthy (Json.fingerprint record)).
Qed.



(** X14: no alarm on the hook's own record.  After a call that is
    admitted (cap of at least one, fingerprint available),
    [detectManipulation] with the same fingerprint answers [false] and
    changes nothing. *)
Theorem detectManipulation_own_record config fingerprint now p p' :
  1 <= maxRequests config →
  fingerprint ≠ EmptyString →
  checkRateLimit config fingerprint now p = (Returns false, p') →
  detectManipulation config fingerprint p' = (false, p').
Proof.
  intros Hcap Havailable.
  assert (Hwritten : ∀ record b state,
    Json.fingerprint record = Some fingerprint →
    detectManipulation config fingerprint
      {| browser := setMultiStorage (storageKey config)
                      (JSON_stringify record) b;
         limiter := state |}
    = (false, {| browser := setMultiStorage (storageKey config)
                              (JSON_stringify record) b;
                 limiter := state |})).
  { intros record b state Hstamp. unfold detectManipulation.
    destruct fingerprint as [|c fingerprint'] eqn:Hfp; [done |].
    simpl browser.
    rewrite setMultiStorage_local, setMultiStorage_session, !lookup_insert_eq.
    replace (truthy (Some (JSON_stringify record)))
      with (Some (JSON_stringify record)) by done.
    rewrite JSON_parse_stringify, Hstamp.
    replace (truthy (Some (String c fingerprint')))
      with (Some (String c fingerprint')) by done.
    by rewrite String.eqb_refl. }
  destruct (recordAt config fingerprint now p) as [record|] eqn:Hrecord.
  - destruct (checkRateLimit_cases config now record)
      as [[Hopen Hfull] | [[Hopen Hroom] | Hover]].
    + by rewrite (checkRateLimit_blocked _ _ _ _ Havailable record).
    + rewrite (checkRateLimit_counted _ _ _ _ Havailable record) by done.
      intros [= <-]. by apply Hwritten.
    + rewrite (checkRateLimit_elapsed _ _ _ _ Havailable record) by done.
      intros [= <-]. by apply Hwritten.
  - by rewrite checkRateLimit_throws.
Qed.


Lemma detectManipulation_own_record_witness :
  detectManipulation betaConfig "F1" searchedOnce = (false, searchedOnce).
Proof.
  apply (detectManipulation_own_record betaConfig "F1" 0
           (freshPage betaConfig)).
  - simpl. lia.
  - discriminate.
  - vm_compute. reflexivity.
Defined.

(** *** Entries under other keys *)

Lemma same_elsewhere_refl key b : same_elsewhere key b b.
Proof. by intros other _. Qed.

Lemma same_elsewhere_trans key b1 b2 b3 :
  same_elsewhere key b1 b2 → same_elsewhere key b2 b3 →
  same_elsewhere key b1 b3.
Proof.
  intros H12 H23 other Hother.
  destruct (H12 other Hother) as [<- <-]. by apply H23.
Qed.

Lemma setMultiStorage_elsewhere key value b :
  same_elsewhere key b (setMultiStorage key value b).
Proof.
  intros other Hother.
  rewrite setMultiStorage_local, setMultiStorage_session.
  by rewrite !lookup_insert_ne.
Qed.

Lemma getMultiStorage_elsewhere key b :
  same_elsewhere key b (getMultiStorage key b).2.
Proof.
  intros other Hother. unfold getMultiStorage.
  destruct (truthy (localStorage b !! key)); [done |].
  destruct (truthy (sessionStorage b !! key)); simpl.
  { by rewrite lookup_insert_ne. }
  destruct (findCookie _ _); simpl; [| done].
  by rewrite !lookup_insert_ne.
Qed.

Lemma detectManipulation_elsewhere config fingerprint p :
  same_elsewhere (storageKey config) (browser p)
    (browser (detectManipulation config fingerprint p).2).
Proof.
  destruct (decide (fingerprint = EmptyString)) as [->|Havailable].
  { apply same_elsewhere_refl. }
  rewrite detectManipulation_page by done.
  intros other Hother.
  destruct (truthy (localStorage _ !! _)), (truthy (sessionStorage _ !! _));
    simpl; by rewrite ?lookup_insert_ne.
Qed.

Lemma checkRateLimit_elsewhere config fingerprint now p :
  same_elsewhere (storageKey config) (browser p)
    (browser (checkRateLimit config fingerprint now p).2).
Proof.
  unfold checkRateLimit.
  destruct fingerprint as [|c fingerprint]; [apply same_elsewhere_refl |].
  pose proof (detectManipulation_elsewhere config (String c fingerprint) p)
    as Hdetect.
  destruct (detectManipulation _ _ p) as [flag p1]. simpl in Hdetect.
  pose proof (getMultiStorage_elsewhere (storageKey config) (browser p1))
    as Hread.
  destruct (getMultiStorage _ (browser p1)) as [stored b2]. simpl in Hread.
  assert (Hb2 : same_elsewhere (storageKey config) (browser p) b2)
    by (by eapply same_elsewhere_trans).
  assert (Hset : ∀ value,
            same_elsewhere (storageKey config) (browser p)
              (setMultiStorage (storageKey config) value b2))
    by (intros value; eapply same_elsewhere_trans;
        [exact Hb2 | apply setMultiStorage_elsewhere]).
  assert (Hset2 : ∀ value value',
            same_elsewhere (storageKey config) (browser p)
              (setMultiStorage (storageKey config) value
                 (setMultiStorage (storageKey config) value' b2)))
    by (intros value value'; eapply same_elsewhere_trans;
        [apply Hset | apply setMultiStorage_elsewhere]).
  destruct (match truthy stored with
            | Some stored0 => JSON_parse stored0
            | None => _
            end) as [record|]; [| done].
  cbv zeta.
  destruct ((now <? _) && _); [done |].
  destruct (timestamp record + windowMs config <=? now); simpl;
    repeat case_match; simpl; done.
Qed.

(** X15: a call touches its own key only.  Whatever it answers,
    [checkRateLimit] leaves the entries of [localStorage] and
    [sessionStorage] under every other key as they are. *)
Theorem checkRateLimit_other_keys config fingerprint now p other :
  other ≠ storageKey config →
  localStorage (browser (checkRateLimit config fingerprint now p).2) !! other
  = localStorage (browser p) !! other
  ∧ sessionStorage (browser (checkRateLimit config fingerprint now p).2)
      !! other
    = sessionStorage (browser p) !! other.
Proof. intros Hother. by apply checkRateLimit_elsewhere. Qed.

Lemma checkRateLimit_other_keys_witness :
  localStorage (browser (checkRateLimit betaConfig "F1" 0 themedPage).2)
    !! "theme"
  = localStorage (browser themedPage) !! "theme"
  ∧ sessionStorage (browser (checkRateLimit betaConfig "F1" 0 themedPage).2)
      !! "theme"
    = sessionStorage (browser themedPage) !! "theme".
Proof. apply checkRateLimit_other_keys. discriminate. Defined.

End ClientMore.

(** ** The cookie as the third backend *)

Module CookieFacts.

Import JsString Json Client JsonFacts ClientSpec Session ClientSamples
  MoreSamples.

#[local] Arguments String.append : simpl nomatch.

Lemma lacks_app sep a b : lacks sep (a +:+ b) = lacks sep a && lacks sep b.
Proof.
  induction a as [|c a IH]; simpl; [done |].
  rewrite IH. by destruct (negb _).
Qed.

Lemma split_lacks sep s : lacks sep s = true → split sep s = [s].
Proof.
  induction s as [|c s IH]; simpl; [done |].
  destruct (Ascii.eqb c sep); simpl; [done |].
  intros Hs. by rewrite IH.
Qed.

Lemma split_app sep s t :
  lacks sep s = true →
  split sep (s +:+ String sep t) = s :: split sep t.
Proof.
  induction s as [|c s IH]; simpl.
  - by rewrite Ascii.eqb_refl.
  - destruct (Ascii.eqb c sep); simpl; [done |].
    intros Hs. by rewrite IH.
Qed.

Lemma cut_app sep name value :
  lacks sep name = true →
  cut sep (name +:+ String sep value) = Some (name, value).
Proof.
  induction name as [|c name IH]; simpl.
  - by rewrite Ascii.eqb_refl.
  - destruct (Ascii.eqb c sep); simpl; [done |].
    intros Hs. by rewrite IH.
Qed.

Lemma endsWell_app ws a s : endsWell ws s → endsWell ws (a +:+ s).
Proof.
  intros [Hne Hs]. induction a as [|c a [Hne' IH]]; [done |].
  split; [done |]. simpl. rewrite IH.
  destruct (a +:+ s); [done | done].
Qed.

Lemma endsWell_char ws c : ws c = false → endsWell ws (String c EmptyString).
Proof. intros Hc. split; [done |]. simpl. by rewrite Hc. Qed.

Lemma isWsp_isWhiteSpace c : isWhiteSpace c = false → isWsp c = false.
Proof. by destruct c as [[] [] [] [] [] [] [] []]. Qed.

(** *** What [document.cookie] shows of a tidy jar *)

Lemma tidyName_nonempty name : tidyName name = true → name ≠ EmptyString.
Proof. by destruct name. Qed.

Lemma renderCookie_tidy name value :
  tidyName name = true →
  renderCookie (name, value) = name +:+ String "=" value.
Proof. by destruct name. Qed.

Lemma renderCookie_lacks cookie :
  tidyName cookie.1 && tidyValue cookie.2 = true →
  lacks ";" (renderCookie cookie) = true.
Proof.
  destruct cookie as [name value]. simpl.
  intros [Hname Hvalue]%andb_true_iff.
  rewrite renderCookie_tidy by done.
  rewrite lacks_app. simpl.
  destruct name as [|c name]; [done |]. unfold tidyName, cookieSafe in Hname.
  apply andb_true_iff in Hname as [_ [-> _]%andb_true_iff].
  unfold tidyValue in Hvalue.
  by apply andb_true_iff in Hvalue as [-> _].
Qed.

Lemma split_renderCookies jar :
  tidyJar jar = true →
  split ";" (renderCookies jar) = segments jar.
Proof.
  induction jar as [|cookie rest IH]; [done |].
  intros [Hcookie Hrest]%andb_true_iff.
  destruct rest as [|cookie' rest].
  - simpl. apply split_lacks. by apply renderCookie_lacks.
  - change (renderCookies (cookie :: cookie' :: rest))
      with (renderCookie cookie +:+ String ";" (String " "
              (renderCookies (cookie' :: rest)))).
    rewrite split_app by (by apply renderCookie_lacks).
    change (split ";" (String " " (renderCookies (cookie' :: rest))))
      with (match split ";" (renderCookies (cookie' :: rest)) with
            | piece :: pieces => String " " piece :: pieces
            | [] => [String " " EmptyString]
            end).
    rewrite (IH Hrest). done.
Qed.


Lemma trim_tidy name value :
  tidyName name = true →
  tidyValue value = true →
  trim (name +:+ String "=" value) = name +:+ String "=" value
  ∧ trim (String " " (name +:+ String "=" value))
    = name +:+ String "=" value.
Proof.
  intros Hname Hvalue.
  assert (Hend : endsWell isWhiteSpace (name +:+ String "=" value)).
  { apply endsWell_app.
    destruct value as [|c value]; [by apply endsWell_char |].
    apply (endsWell_app _ (String "=" EmptyString)).
    split; [done |]. unfold tidyValue in Hvalue.
    apply andb_true_iff in Hvalue as [_ Htrim].
    by apply String.eqb_eq in Htrim. }
  destruct name as [|c name]; [done |].
  unfold tidyName in Hname. apply andb_true_iff in Hname as [Hc _].
  apply negb_true_iff in Hc.
  unfold trim. simpl trimStartWith. rewrite Hc. split; apply Hend.
Qed.

Lemma findCookie_tidy key segment name value rest :
  tidyName name = true →
  tidyValue value = true →
  segment = name +:+ String "=" value
  ∨ segment = String " " (name +:+ String "=" value) →
  findCookie key (segment :: rest)
  = match String.eqb name key, truthy (head (split "=" value)) with
    | true, Some val => Some val
    | _, _ => findCookie key rest
    end.
Proof.
  intros Hname Hvalue Hsegment.
  assert (Htrim : trim segment = name +:+ String "=" value)
    by (destruct (trim_tidy name value Hname Hvalue);
        destruct Hsegment as [-> | ->]; done).
  cbn [findCookie]. cbv zeta. rewrite Htrim.
  assert (Hlacks : lacks "=" name = true).
  { destruct name; [done |]. unfold tidyName, cookieSafe in Hname.
    by apply andb_true_iff in Hname as [_ [_ ?]%andb_true_iff]. }
  rewrite split_app by done. simpl hd.
  replace (nth_error (name :: split "=" value) 1)
    with (head (split "=" value)) by (by destruct (split "=" value)).
  done.
Qed.

Lemma findCookie_rest key rest :
  tidyJar rest = true →
  findCookie key (map (λ c, String " " (renderCookie c)) rest)
  = lookupJar key rest.
Proof.
  induction rest as [|[name value] rest IH]; [done |].
  intros [[Hname Hvalue]%andb_true_iff Hrest]%andb_true_iff.
  simpl in Hname, Hvalue. simpl map.
  rewrite (findCookie_tidy key _ name value) by
    (done || (right; by rewrite renderCookie_tidy)).
  simpl. by rewrite IH.
Qed.

(** X16: what the cookie loop finds.  On a jar of tidy cookies (names
    without semicolon, equals sign or leading white space; values without
    semicolon or trailing white space), the loop of [getMultiStorage]
    over [document.cookie] returns the value, up to its first equals
    sign, of the first cookie that has the name of the key and a
    non-empty such value. *)
Theorem findCookie_lookupJar key jar :
  tidyJar jar = true →
  findCookie key (split ";" (renderCookies jar)) = lookupJar key jar.
Proof.
  intros Hjar. rewrite split_renderCookies by done.
  destruct jar as [|[name value] rest].
  - unfold segments. cbn [findCookie]. cbv zeta.
    change (trim EmptyString) with EmptyString. simpl split. simpl.
    by destruct key.
  - apply andb_true_iff in Hjar as [[Hname Hvalue]%andb_true_iff Hrest].
    simpl in Hname, Hvalue. unfold segments.
    rewrite (findCookie_tidy key _ name value) by
      (done || (left; by rewrite renderCookie_tidy)).
    simpl. by rewrite findCookie_rest.
Qed.

Lemma findCookie_lookupJar_witness :
  findCookie "restaurant-search"
    (split ";"
       (renderCookies
          [("theme", "dark");
           ("restaurant-search", JSON_stringify firstRecord)]))
  = lookupJar "restaurant-search"
      [("theme", "dark"); ("restaurant-search", JSON_stringify firstRecord)].
Proof. apply findCookie_lookupJar. vm_compute. reflexivity. Defined.

Lemma lookupJar_storeCookie key value jar :
  value ≠ EmptyString →
  lacks "=" value = true →
  lookupJar key (storeCookie key value jar) = Some value.
Proof.
  intros Hne Hlacks.
  assert (Hhit : lookupJar key ((key, value) :: nil) = Some value
                 ∧ ∀ rest, lookupJar key ((key, value) :: rest) = Some value).
  { assert (∀ rest, lookupJar key ((key, value) :: rest) = Some value).
    { intros rest. simpl. rewrite String.eqb_refl, split_lacks by done.
      by destruct value. }
    done. }
  destruct Hhit as [_ Hhit].
  induction jar as [|[n v] jar IH]; [apply Hhit |].
  simpl storeCookie. destruct (String.eqb n key) eqn:Hn; [apply Hhit |].
  simpl. by rewrite Hn.
Qed.

Lemma tidyJar_storeCookie name value jar :
  tidyName name = true →
  tidyValue value = true →
  tidyJar jar = true →
  tidyJar (storeCookie name value jar) = true.
Proof.
  intros Hname Hvalue.
  induction jar as [|[n v] jar IH]; simpl.
  - by rewrite Hname, Hvalue.
  - intros [Hcookie Hjar]%andb_true_iff.
    destruct (String.eqb n name); simpl.
    + by rewrite Hname, Hvalue, Hjar.
    + by rewrite Hcookie, IH.
Qed.


(** *** Writing a tidy cookie *)

Lemma trimStartWith_clean ws c s :
  ws c = false → trimStartWith ws (String c s) = String c s.
Proof. intros Hc. simpl. by rewrite Hc. Qed.

Lemma document_cookie_assign_tidy key value attributes b :
  tidyKey key = true →
  lacks ";" value = true →
  (∃ c rest, value = String c rest ∧ isWsp c = false) →
  endsWell isWsp value →
  cookieJar
    (document_cookie_assign
       (key +:+ "=" +:+ value +:+ String ";" attributes) b)
  = storeCookie key value (cookieJar b).
Proof.
  intros [Hname Hend]%andb_true_iff Hvalue (c & rest & -> & Hc) [_ Hvend].
  apply String.eqb_eq in Hend.
  destruct key as [|k key]; [done |].
  pose proof Hname as Hname'.
  unfold tidyName, cookieSafe in Hname'.
  apply andb_true_iff in Hname' as [Hk [Hsemi Heq]%andb_true_iff].
  apply negb_true_iff, isWsp_isWhiteSpace in Hk.
  unfold document_cookie_assign.
  replace (String k key +:+ "=" +:+ String c rest +:+ String ";" attributes)
    with ((String k key +:+ String "=" (String c rest))
            +:+ String ";" attributes)
    by (rewrite append_assoc; reflexivity).
  rewrite split_app by (rewrite lacks_app; simpl in *; by rewrite Hsemi).
  cbn [hd]. rewrite cut_app by done.
  rewrite (trimStartWith_clean isWsp k key Hk), Hend.
  rewrite (trimStartWith_clean isWsp c rest Hc), Hvend.
  done.
Qed.

(** *** The JSON text of a record as a cookie value *)

Lemma lacks_string_of_uint sep d :
  sep = ";"%char ∨ sep = "="%char →
  lacks sep (NilEmpty.string_of_uint d) = true.
Proof.
  intros [-> | ->]; induction d; simpl; rewrite ?IHd; done.
Qed.

Lemma lacks_stringifyNumber sep z :
  sep = ";"%char ∨ sep = "="%char →
  lacks sep (stringifyNumber z) = true.
Proof.
  intros Hsep. unfold stringifyNumber.
  assert (Huint : ∀ d, lacks sep (NilZero.string_of_uint d) = true).
  { intros d. unfold NilZero.string_of_uint.
    destruct d; try apply lacks_string_of_uint; try done.
    by destruct Hsep as [-> | ->]. }
  destruct (Z.to_int z) as [d|d]; simpl; [apply Huint |].
  rewrite Huint. by destruct Hsep as [-> | ->].
Qed.

Lemma lacks_escapeChar_semicolon c :
  lacks ";" (escapeChar c) = negb (Ascii.eqb c ";").
Proof. by destruct c as [[] [] [] [] [] [] [] []]. Qed.

Lemma lacks_escapeChar_equals c :
  lacks "=" (escapeChar c) = negb (Ascii.eqb c "=").
Proof. by destruct c as [[] [] [] [] [] [] [] []]. Qed.

Lemma cookieSafe_escape s : cookieSafe s = true → cookieSafe (escape s) = true.
Proof.
  unfold cookieSafe. intros [Hsemi Heq]%andb_true_iff.
  apply andb_true_iff. split.
  - clear Heq. induction s as [|c s IH]; [done |]. simpl in *.
    apply andb_true_iff in Hsemi as [Hc Hs].
    by rewrite lacks_app, lacks_escapeChar_semicolon, Hc, IH.
  - clear Hsemi. induction s as [|c s IH]; [done |]. simpl in *.
    apply andb_true_iff in Heq as [Hc Hs].
    by rewrite lacks_app, lacks_escapeChar_equals, Hc, IH.
Qed.

Lemma cookieSafe_JSON_stringify record :
  fingerprintSafe record = true →
  cookieSafe (JSON_stringify record) = true.
Proof.
  intros Hsafe. unfold cookieSafe, JSON_stringify, stringifyString.
  destruct record as [ts n [f|]]; simpl in *.
  - apply cookieSafe_escape in Hsafe. unfold cookieSafe in Hsafe.
    apply andb_true_iff in Hsafe as [Hsemi Heq].
    rewrite !lacks_app, !lacks_stringifyNumber by auto. simpl.
    rewrite !lacks_app, !lacks_stringifyNumber by auto. simpl.
    rewrite !lacks_app, Hsemi, Heq. done.
  - rewrite !lacks_app, !lacks_stringifyNumber by auto. simpl.
    by rewrite !lacks_app, !lacks_stringifyNumber by auto.
Qed.

Lemma endsWell_JSON_stringify ws record :
  ws "}"%char = false → endsWell ws (JSON_stringify record).
Proof.
  intros Hws. unfold JSON_stringify.
  repeat apply endsWell_app. by apply endsWell_char.
Qed.

Lemma JSON_stringify_head record :
  ∃ rest, JSON_stringify record = String "{" rest.
Proof. unfold JSON_stringify. simpl. by eexists. Qed.

(** *** Recovery from the cookie *)

(** X17: the record comes back from the cookie.  For a tidy key, a jar of
    tidy cookies and a record whose fingerprint has no semicolon or
    equals sign: after the record is written to the three backends and
    then lost from both [localStorage] and [sessionStorage], a read
    returns the text of the record and writes it back into both. *)
Theorem getMultiStorage_recovers_from_cookie key record b :
  tidyKey key = true →
  tidyJar (cookieJar b) = true →
  fingerprintSafe record = true →
  let value := JSON_stringify record in
  let cleared :=
    sessionStorage_removeItem key
      (localStorage_removeItem key (setMultiStorage key value b)) in
  getMultiStorage key cleared
  = (Some value,
     sessionStorage_setItem key value (localStorage_setItem key value cleared)).
Proof.
  intros Hkey Hjar Hsafe. cbv zeta.
  pose proof (cookieSafe_JSON_stringify record Hsafe) as Hcookie.
  unfold cookieSafe in Hcookie.
  apply andb_true_iff in Hcookie as [Hsemi Heq].
  destruct (JSON_stringify_head record) as [rest Hhead].
  assert (Hstored : cookieJar (setMultiStorage key (JSON_stringify record) b)
                    = storeCookie key (JSON_stringify record) (cookieJar b)).
  { unfold setMultiStorage.
    change "; path=/; max-age=86400"
      with (String ";" " path=/; max-age=86400").
    rewrite document_cookie_assign_tidy; try done.
    - exists "{"%char, rest. by split.
    - by apply endsWell_JSON_stringify. }
  assert (Htidy : tidyJar (storeCookie key (JSON_stringify record) (cookieJar b))
                  = true).
  { apply tidyJar_storeCookie; [| | done].
    - by apply andb_true_iff in Hkey as [? _].
    - unfold tidyValue. rewrite Hsemi. simpl. apply String.eqb_eq.
      by apply endsWell_JSON_stringify. }
  unfold getMultiStorage. simpl.
  rewrite !lookup_delete_eq. simpl.
  rewrite Hstored, findCookie_lookupJar by done.
  rewrite lookupJar_storeCookie; [done | by rewrite Hhead | done].
Qed.


Lemma getMultiStorage_recovers_from_cookie_witness :
  let value := JSON_stringify firstRecord in
  let cleared :=
    sessionStorage_removeItem "restaurant-search"
      (localStorage_removeItem "restaurant-search"
         (setMultiStorage "restaurant-search" value themed)) in
  getMultiStorage "restaurant-search" cleared
  = (Some value,
     sessionStorage_setItem "restaurant-search" value
       (localStorage_setItem "restaurant-search" value cleared)).
Proof.
  apply (getMultiStorage_recovers_from_cookie "restaurant-search" firstRecord
           themed); vm_compute; reflexivity.
Defined.



End CookieFacts.

(** ** The fingerprint *)

Module FingerprintFacts.

Import JsString Json Client JsonFacts Fingerprint MoreSamples.

#[local] Arguments String.append : simpl nomatch.

Lemma base64Digit_alphanumeric n :
  (n < 62)%N → isAlphanumeric (base64Digit n) = true.
Proof.
  intros Hn. destruct n as [|p]; [done |].
  do 6 (destruct p as [p|p|]; try reflexivity); lia.
Qed.

Lemma plainByte_bound c : plainByte c = true → (N_of_ascii c < 128)%N.
Proof.
  unfold plainByte. intros [H _]%andb_true_iff. by apply N.ltb_lt.
Qed.

Lemma group1_alphanumeric a :
  (a < 128)%N → isAlphanumeric (base64Digit (N.shiftr a 2)) = true.
Proof.
  intros Ha. apply base64Digit_alphanumeric.
  rewrite N.shiftr_div_pow2. change (2 ^ 2)%N with 4%N.
  apply N.Div0.div_lt_upper_bound. lia.
Qed.

Lemma group2_alphanumeric a b :
  (b < 128)%N →
  isAlphanumeric
    (base64Digit (N.lor (N.shiftl (N.land a 3) 4) (N.shiftr b 4))) = true.
Proof.
  intros Hb.
  assert (Hx : (N.land a 3 < 4)%N).
  { change 3%N with (N.ones 2). rewrite N.land_ones.
    apply N.mod_upper_bound. done. }
  assert (Hy : (N.shiftr b 4 < 8)%N).
  { rewrite N.shiftr_div_pow2. change (2 ^ 4)%N with 16%N.
    apply N.Div0.div_lt_upper_bound. lia. }
  destruct (N.land a 3) as [|[[?|?|]|[?|?|]|]]; try lia;
    destruct (N.shiftr b 4) as [|[[[?|?|]|[?|?|]|]|[[?|?|]|[?|?|]|]|]];
    try lia; reflexivity.
Qed.

Lemma group3_alphanumeric b c :
  (c < 128)%N →
  isAlphanumeric
    (base64Digit (N.lor (N.shiftl (N.land b 15) 2) (N.shiftr c 6))) = true.
Proof.
  intros Hc.
  assert (Hx : (N.land b 15 < 16)%N).
  { change 15%N with (N.ones 4). rewrite N.land_ones.
    apply N.mod_upper_bound. done. }
  assert (Hy : (N.shiftr c 6 < 2)%N).
  { rewrite N.shiftr_div_pow2. change (2 ^ 6)%N with 64%N.
    apply N.Div0.div_lt_upper_bound. lia. }
  destruct (N.shiftr c 6) as [|[?|?|]]; try lia;
    destruct (N.land b 15)
      as [|[[[[?|?|]|[?|?|]|]|[[?|?|]|[?|?|]|]|]
           |[[[?|?|]|[?|?|]|]|[[?|?|]|[?|?|]|]|]|]];
    try lia; reflexivity.
Qed.

Lemma group4_alphanumeric c :
  plainByte c = true →
  isAlphanumeric (base64Digit (N.land (N_of_ascii c) 63)) = true.
Proof.
  unfold plainByte. intros [_ H]%andb_true_iff.
  apply base64Digit_alphanumeric. by apply N.ltb_lt.
Qed.


Lemma btoa_three a b c s :
  btoa (String a (String b (String c s)))
  = String (base64Digit (N.shiftr (N_of_ascii a) 2))
      (String (base64Digit
                 (N.lor (N.shiftl (N.land (N_of_ascii a) 3) 4)
                    (N.shiftr (N_of_ascii b) 4)))
         (String (base64Digit
                    (N.lor (N.shiftl (N.land (N_of_ascii b) 15) 2)
                       (N.shiftr (N_of_ascii c) 6)))
            (String (base64Digit (N.land (N_of_ascii c) 63)) (btoa s)))).
Proof. reflexivity. Qed.

Lemma keepAlphanumeric_triples k :
  ∀ u rest,
    allChars plainByte u = true →
    String.length u = (3 * k)%nat →
    keepAlphanumeric (btoa (u +:+ rest))
    = btoa u +:+ keepAlphanumeric (btoa rest)
    ∧ String.length (btoa u) = (4 * k)%nat
    ∧ allChars isAlphanumeric (btoa u) = true.
Proof.
  induction k as [|k IH]; intros u rest Hplain Hlength.
  - destruct u; [done | simpl in Hlength; lia].
  - destruct u as [|a [|b [|c u]]]; simpl in Hlength; try lia.
    simpl in Hplain.
    apply andb_true_iff in Hplain as [Ha [Hb [Hc Hu]%andb_true_iff]%andb_true_iff].
    destruct (IH u rest Hu ltac:(lia)) as (Hkeep & Hlen & Halnum).
    change (String a (String b (String c u)) +:+ rest)
      with (String a (String b (String c (u +:+ rest)))).
    rewrite !btoa_three.
    pose proof (group1_alphanumeric _ (plainByte_bound a Ha)) as H1.
    pose proof (group2_alphanumeric (N_of_ascii a) _ (plainByte_bound b Hb))
      as H2.
    pose proof (group3_alphanumeric (N_of_ascii b) _ (plainByte_bound c Hc))
      as H3.
    pose proof (group4_alphanumeric c Hc) as H4.
    simpl. rewrite H1, H2, H3, H4, Hkeep, Hlen, Halnum.
    repeat split; try done; lia.
Qed.

Lemma slice0_app_exact u rest :
  slice0 (String.length u) (u +:+ rest) = u.
Proof. induction u as [|c u IH]; simpl; [by destruct rest | by rewrite IH]. Qed.

Lemma slice0_app_long n u rest :
  (n <= String.length u)%nat → slice0 n (u +:+ rest) = slice0 n u.
Proof.
  revert u. induction n as [|n IH]; intros u Hn; [done |].
  destruct u as [|c u]; simpl in *; [lia |]. rewrite IH; [done | lia].
Qed.

Lemma slice0_split n s : ∃ tail, s = slice0 n s +:+ tail.
Proof.
  revert s. induction n as [|n IH]; intros s; [by exists s |].
  destruct s as [|c s]; [by exists EmptyString |].
  destruct (IH s) as [tail Htail]. exists tail. simpl. by rewrite <- Htail.
Qed.

Lemma slice0_length n s :
  (n <= String.length s)%nat → String.length (slice0 n s) = n.
Proof.
  revert s. induction n as [|n IH]; intros s Hn; [done |].
  destruct s as [|c s]; simpl in *; [lia |]. rewrite IH; [done | lia].
Qed.

Lemma allChars_app P a b : allChars P (a +:+ b) = allChars P a && allChars P b.
Proof.
  induction a as [|c a IH]; simpl; [done |].
  rewrite IH. by destruct (P c).
Qed.

Lemma allChars_slice0 P n s : allChars P s = true → allChars P (slice0 n s) = true.
Proof.
  revert s. induction n as [|n IH]; intros s; [done |].
  destruct s as [|c s]; simpl; [done |].
  intros [-> Hs]%andb_true_iff. by rewrite IH.
Qed.

Lemma length_app a b :
  String.length (a +:+ b) = (String.length a + String.length b)%nat.
Proof. induction a as [|c a IH]; simpl; [done | by rewrite IH]. Qed.

(** The fingerprint of a text that opens with 24 plain characters. *)
Lemma fingerprint_of_plain_head head rest :
  allChars plainByte head = true →
  (24 <= String.length head)%nat →
  slice0 32 (keepAlphanumeric (btoa (head +:+ rest)))
  = btoa (slice0 24 head)
  ∧ String.length (btoa (slice0 24 head)) = 32%nat
  ∧ allChars isAlphanumeric (btoa (slice0 24 head)) = true.
Proof.
  intros Hplain Hlong.
  destruct (slice0_split 24 head) as [tail Htail].
  destruct (keepAlphanumeric_triples 8 (slice0 24 head) (tail +:+ rest))
    as (Hkeep & Hlen & Halnum).
  { by apply allChars_slice0. }
  { by apply slice0_length. }
  rewrite Htail at 1. rewrite append_assoc, Hkeep.
  split; [| done].
  change 32%nat with (4 * 8)%nat. rewrite <- Hlen. apply slice0_app_exact.
Qed.


(** *** The text of [screen] *)

Lemma isScreenChar_plain c :
  isScreenChar c = true →
  plainByte c = true ∧ escapeChar c = String c EmptyString.
Proof. by destruct c as [[] [] [] [] [] [] [] []]. Qed.

Lemma escape_screen s : allChars isScreenChar s = true → escape s = s.
Proof.
  induction s as [|c s IH]; [done |]. simpl.
  intros [Hc Hs]%andb_true_iff.
  destruct (isScreenChar_plain c Hc) as [_ ->]. simpl. by rewrite IH.
Qed.

Lemma plain_screen s :
  allChars isScreenChar s = true → allChars plainByte s = true.
Proof.
  induction s as [|c s IH]; [done |]. simpl.
  intros [Hc Hs]%andb_true_iff.
  destruct (isScreenChar_plain c Hc) as [-> _]. by rewrite IH.
Qed.

Lemma isScreenChar_uint d :
  allChars isScreenChar (NilEmpty.string_of_uint d) = true.
Proof. induction d; simpl; by rewrite ?IHd. Qed.

Lemma isScreenChar_number z :
  allChars isScreenChar (stringifyNumber z) = true.
Proof.
  unfold stringifyNumber.
  assert (Huint : ∀ d, allChars isScreenChar (NilZero.string_of_uint d) = true).
  { intros d. unfold NilZero.string_of_uint.
    destruct d; try apply isScreenChar_uint; done. }
  destruct (Z.to_int z) as [d|d]; unfold NilZero.string_of_int;
    [apply Huint |].
  cbn [allChars]. by rewrite Huint.
Qed.

Lemma isScreenChar_screen env :
  allChars isScreenChar (screen (collect env)) = true.
Proof.
  unfold collect. simpl.
  rewrite allChars_app, isScreenChar_number. simpl.
  rewrite allChars_app, isScreenChar_number. simpl.
  apply isScreenChar_number.
Qed.

Lemma stringifyData_head data :
  allChars isScreenChar (screen data) = true →
  ∃ rest, stringifyData data = screenHead (screen data) +:+ rest.
Proof.
  intros Hscreen. unfold stringifyData, screenHead, stringifyString.
  rewrite (escape_screen _ Hscreen).
  eexists. simpl. rewrite !append_assoc. simpl. reflexivity.
Qed.

Lemma screenHead_plain s :
  allChars isScreenChar s = true →
  allChars plainByte (screenHead s) = true
  ∧ (24 <= String.length (screenHead s))%nat.
Proof.
  intros Hs. unfold screenHead, stringifyString. simpl. split.
  - rewrite allChars_app, (plain_screen _ Hs). done.
  - rewrite length_app. simpl. lia.
Qed.

(** *** The generated fingerprint *)

(** X19: the generated fingerprint is the base64 text of the first 24
    characters of the JSON text, which are the opening of the object and
    the text of [screen]; it has exactly 32 characters, all of them
    letters or digits. *)
Theorem generateFingerprint_screen env :
  generateFingerprint env
  = btoa (slice0 24 (screenHead (screen (collect env))))
  ∧ String.length (generateFingerprint env) = 32%nat
  ∧ allChars isAlphanumeric (generateFingerprint env) = true.
Proof.
  pose proof (isScreenChar_screen env) as Hscreen.
  destruct (stringifyData_head (collect env) Hscreen) as [rest Hrest].
  destruct (screenHead_plain _ Hscreen) as [Hplain Hlong].
  destruct (fingerprint_of_plain_head _ rest Hplain Hlong)
    as (Hprint & Hlength & Halnum).
  unfold generateFingerprint. rewrite Hrest, Hprint. done.
Qed.

(** X20: the fingerprint depends on the screen and on nothing else.  Two
    environments with the same screen width, height and colour depth get
    the same fingerprint, whatever their time zone, language, platform,
    user agent, cookie flag and do-not-track flag. *)
Theorem generateFingerprint_same_screen env1 env2 :
  screenWidth env1 = screenWidth env2 →
  screenHeight env1 = screenHeight env2 →
  screenColorDepth env1 = screenColorDepth env2 →
  generateFingerprint env1 = generateFingerprint env2.
Proof.
  intros Hw Hh Hd.
  destruct (generateFingerprint_screen env1) as [-> _].
  destruct (generateFingerprint_screen env2) as [-> _].
  unfold collect. simpl. by rewrite Hw, Hh, Hd.
Qed.


Lemma generateFingerprint_same_screen_witness :
  generateFingerprint paris = generateFingerprint tokyo.
Proof. apply generateFingerprint_same_screen; reflexivity. Defined.

Example generateFingerprint_paris :
  generateFingerprint paris = "eyJzY3JlZW4iOiIxOTIweDEwODB4MjQi".
Proof. vm_compute. reflexivity. Qed.

Lemma isAlphanumeric_safe c :
  isAlphanumeric c = true →
  negb (Ascii.eqb c ";") && negb (Ascii.eqb c "=") = true.
Proof. by destruct c as [[] [] [] [] [] [] [] []]. Qed.

Lemma alphanumeric_cookieSafe s :
  allChars isAlphanumeric s = true → Session.cookieSafe s = true.
Proof.
  unfold Session.cookieSafe. induction s as [|c s IH]; [done |]. simpl.
  intros [Hc Hs]%andb_true_iff.
  apply isAlphanumeric_safe in Hc as [Hsemi Heq]%andb_true_iff.
  apply IH in Hs as [Hs1 Hs2]%andb_true_iff.
  by rewrite Hsemi, Heq, Hs1, Hs2.
Qed.

(** X21: the fingerprint of a session is never empty and does not
    change.  The hook yields a non-empty fingerprint (a generated one is
    free of semicolons and equals signs), and a later run on the browser
    it leaves yields the same fingerprint and the same browser, whatever
    the environment has become. *)
Theorem useBrowserFingerprint_stable env env' b :
  (useBrowserFingerprint env b).1 ≠ EmptyString
  ∧ Session.cookieSafe (generateFingerprint env) = true
  ∧ useBrowserFingerprint env' (useBrowserFingerprint env b).2
    = useBrowserFingerprint env b.
Proof.
  destruct (generateFingerprint_screen env) as (_ & Hlength & Halnum).
  split; [| split; [by apply alphanumeric_cookieSafe |]].
  - unfold useBrowserFingerprint.
    destruct (truthy (sessionStorage b !! "browser-fingerprint"))
      as [cached|] eqn:Hcached; simpl.
    + destruct (sessionStorage b !! "browser-fingerprint") as [[|c r]|];
        simpl in Hcached; try done. by injection Hcached as <-.
    + intros Hempty. by rewrite Hempty in Hlength.
  - unfold useBrowserFingerprint.
    destruct (truthy (sessionStorage b !! "browser-fingerprint"))
      as [cached|] eqn:Hcached; simpl.
    + by rewrite Hcached.
    + rewrite lookup_insert_eq.
      destruct (generateFingerprint env) as [|c fp] eqn:Hfp; [done |].
      done.
Qed.

End FingerprintFacts.
